(** * The ExecuTorch Module orchestrator and the portable variance kernel

    A shallow embedding of
      - [extension/module/module.cpp]   (class [Module]), and
      - [kernels/portable/cpu/op_var.cpp] (kernel [var_out]),
    together with the properties their specification states about them.

    [Module] drives collaborators whose code lives elsewhere in the runtime
    (data loaders, [Program], [Method], [MethodMeta]).  They are gathered in
    the class [Runtime]: every theorem about [Module] holds for all of its
    instances.  Collaborators that touch the outside of the object (files,
    the heap, the kernels a method runs) take a [World] and return the next
    one, so their answers may change from one call to the next.

    Each call the source makes to a collaborator is appended to a trace, so
    that "is called at most once" and "is never called" can be stated.

    The bookkeeping allocations of the standard containers are taken to
    succeed, and so is the construction of the vector of outputs in
    [execute], whose size is the method's answer; the planned buffers, whose
    sizes come from the program file, may fail to be allocated.  What is
    proved of [execute] is thus about the runs in which its vector of
    outputs could be built. *)

From stdpp Require Import base strings gmap list.
From Stdlib Require Import ZArith Lia.

Local Open Scope Z_scope.

(** ** Errors and results *)

(** Modelled from the spec: the values of the runtime's error enumeration
    other than [Error::Ok] (the enumeration is declared in
    runtime/core/error.h); the names are the taxonomy of the spec's section
    on error handling. *)
Inductive ErrorCode : Type :=
| AccessorConstructionError
| ProgramParseError
| MethodNotFoundError
| MetadataError
| MemoryAllocationError
| MethodMaterializationError
| InputBindingError
| ExecutionError
| OutputRetrievalError.

(** [Error]: [Error::Ok] or one of the failure codes. *)
Inductive Error : Type :=
| Ok
| Err (c : ErrorCode).

(** [Result<T>]: a value, or an error that is never [Error::Ok]. *)
Inductive Result (T : Type) : Type :=
| Value (t : T)
| Failure (c : ErrorCode).
Arguments Value {T} t.
Arguments Failure {T} c.

Definition Result_ok {T} (r : Result T) : bool :=
  match r with Value _ => true | Failure _ => false end.

#[global] Instance ErrorCode_eq_dec : EqDecision ErrorCode.
Proof. solve_decision. Defined.
#[global] Instance Error_eq_dec : EqDecision Error.
Proof. solve_decision. Defined.

(** ** Machine integers *)

(** [size_t] is 64 bits wide; [int] is 32 bits wide. *)
Definition SIZE_MODULUS : Z := 2 ^ 64.
Definition INT_MAX : Z := 2 ^ 31 - 1.

(** Conversion of an integer to [size_t]. *)
Definition to_size_t (z : Z) : Z := z mod SIZE_MODULUS.

(** [std::vector<uint8_t>::max_size()]. *)
Definition VECTOR_MAX_SIZE : Z := 2 ^ 63 - 1.

(** ** Data of the module *)

(** [Module::LoadMode]. *)
Inductive LoadMode : Type :=
| File
| Mmap
| MmapUseMlock
| MmapUseMlockIgnoreErrors.

(** [util::MmapDataLoader::MlockConfig]. *)
Inductive MlockConfig : Type :=
| NoMlock
| UseMlock
| UseMlockIgnoreErrors.

(** [Span<uint8_t>]: the data pointer, given as the position of the planned
    buffer it points into, and the length. *)
Record Span : Type := mkSpan {
  span_data : nat;
  span_size : Z;
}.

#[global] Instance Span_eq_dec : EqDecision Span.
Proof. solve_decision. Defined.

(** [HierarchicalAllocator]: a view over the spans, addressed by position. *)
Record HierarchicalAllocator : Type := mkHierarchicalAllocator {
  hierarchical_spans : list Span;
}.

(** The collaborators of [Module]. *)
Class Runtime : Type := {
  World : Type;
  DataLoader : Type;
  Program : Type;
  MethodMeta : Type;
  Method : Type;
  EValue : Type;
  Tensor : Type;
  Pointer : Type;
  EventTracer : Type;
  MemoryAllocator : Type;
  Verification : Type;

  (** Defaults written in module.h. *)
  default_verification : Verification;
  default_load_mode : LoadMode;
  (** [std::make_unique<util::MallocMemoryAllocator>()]. *)
  MallocMemoryAllocator : MemoryAllocator;
  (** [EValue()]. *)
  EValue_default : EValue;

  runtime_init : World -> World;

  FileDataLoader_from : string -> World -> Result DataLoader * World;
  MmapDataLoader_from :
    string -> MlockConfig -> World -> Result DataLoader * World;
  Program_load :
    DataLoader -> Verification -> World -> Result Program * World;

  (** A [Program] is immutable: its queries are functions. *)
  Program_num_methods : Program -> Z;
  Program_get_method_name : Program -> Z -> Result string;
  Program_method_meta : Program -> string -> Result MethodMeta;

  MethodMeta_num_memory_planned_buffers : MethodMeta -> Z;
  MethodMeta_memory_planned_buffer_size : MethodMeta -> Z -> Result Z;

  (** The heap request behind [std::vector<uint8_t>(n)]: [false] is
      [std::bad_alloc]. *)
  operator_new : Z -> World -> bool * World;

  (** [Program::load_method(name, memory_manager, event_tracer)], given the
      three allocators of the memory manager. *)
  Program_load_method :
    Program -> string ->
    MemoryAllocator -> HierarchicalAllocator -> MemoryAllocator ->
    option EventTracer -> World -> Result Method * World;

  Method_set_input : Method -> EValue -> Z -> World -> Error * Method * World;
  Method_execute : Method -> World -> Error * Method * World;
  Method_outputs_size : Method -> Z;
  (** [Method::get_outputs(array, n)]: the error, and for each position of
      the array the value written there, if any. *)
  Method_get_outputs :
    Method -> Z -> World -> Error * (nat -> option EValue) * Method * World;
  Method_set_output_data_ptr :
    Method -> Pointer -> Z -> Z -> World -> Error * Method * World;
  Method_method_meta : Method -> MethodMeta;

  Tensor_mutable_data_ptr : Tensor -> Pointer;
  Tensor_nbytes : Tensor -> Z;
}.

Section WithRuntime.

Context `{RT : Runtime}.

(** [MemoryManager]: the three allocators handed to a method. *)
Record MemoryManager : Type := mkMemoryManager {
  method_allocator : MemoryAllocator;
  planned_memory_of : HierarchicalAllocator;
  temp_allocator_of : MemoryAllocator;
}.

(** [Module::MethodHolder].  [planned_buffers] has the vectors as
    [load_method] makes them, one list of bytes per vector; the bytes a
    method writes later, through the pointers of the spans it was given, are
    part of the state of the method object and are not followed here: of a
    cached buffer, the model keeps the place in the list and the size. *)
Record MethodHolder : Type := mkMethodHolder {
  planned_buffers : list (list Byte.byte);
  planned_spans : list Span;
  planned_memory : HierarchicalAllocator;
  memory_manager : MemoryManager;
  method : Method;
}.

(** The [shared_ptr<Program>] of the module: the program and the data loader
    its deleter keeps alive, if any. *)
Record ProgramPtr : Type := mkProgramPtr {
  program_object : Program;
  program_keeps : option DataLoader;
}.

(** The fields of [Module]. *)
Record Module : Type := mkModule {
  file_path_ : string;
  load_mode_ : LoadMode;
  data_loader_ : option DataLoader;
  program_ : option ProgramPtr;
  memory_allocator_ : MemoryAllocator;
  temp_allocator_ : MemoryAllocator;
  event_tracer_ : option EventTracer;
  methods_ : gmap string MethodHolder;
}.

(** ** The trace of calls *)

Inductive Event : Type :=
| Call_runtime_init
| Call_load                                   (* Module::load is entered *)
| Call_FileDataLoader_from (path : string) (r : Result DataLoader)
| Call_MmapDataLoader_from (path : string) (c : MlockConfig)
    (r : Result DataLoader)
| Call_Program_load (d : DataLoader) (v : Verification) (r : Result Program)
| Call_get_method_name (index : Z) (r : Result string)
| Call_method_meta (name : string) (r : Result MethodMeta)
| Call_memory_planned_buffer_size (name : string) (index : Z) (r : Result Z)
| Call_operator_new (name : string) (size : Z) (ok : bool)
| Call_Program_load_method (name : string) (m : MemoryManager)
    (t : option EventTracer) (r : Result Method)
| Insert_holder (name : string)
| Call_set_input (name : string) (v : EValue) (index : Z) (e : Error)
| Call_execute (name : string) (e : Error)
| Call_get_outputs (name : string) (n : Z) (e : Error)
| Call_set_output_data_ptr (name : string) (p : Pointer) (nbytes : Z)
    (index : Z) (e : Error).

(** ** The state and the ways a call ends *)

Record State : Type := mkState {
  module : Module;
  world : World;
  trace : list Event;
}.

(** C++ exceptions the code can meet. *)
Inductive Exn : Type :=
| bad_alloc
| length_error
| out_of_range.

(** A call that does not return to its caller. *)
Inductive Halt : Type :=
| Exception (e : Exn)       (* thrown; module.cpp catches nothing *)
| Abort                     (* a failed runtime check ends the process *)
| Undefined.                (* signed overflow, null dereference *)

Inductive Outcome (A : Type) : Type :=
| Returns (a : A) (s : State)
| Halts (h : Halt) (s : State).
Arguments Returns {A} a s.
Arguments Halts {A} h s.

Definition M (A : Type) : Type := State -> Outcome A.

Definition ret {A} (a : A) : M A := fun s => Returns a s.

Definition bind {A B} (c : M A) (k : A -> M B) : M B :=
  fun s =>
    match c s with
    | Returns a s' => k a s'
    | Halts h s' => Halts h s'
    end.

Definition halt {A} (h : Halt) : M A := fun s => Halts h s.

Definition final_state {A} (o : Outcome A) : State :=
  match o with
  | Returns _ s => s
  | Halts _ s => s
  end.

Notation "x <- c ;; k" := (bind c (fun x => k))
  (at level 100, c at next level, right associativity).
Notation "c ;;; k" := (bind c (fun _ => k))
  (at level 100, right associativity).

Definition get_module : M Module := fun s => Returns (module s) s.

Definition set_module (m : Module) : M unit :=
  fun s => Returns tt (mkState m (world s) (trace s)).

Definition log (e : Event) : M unit :=
  fun s => Returns tt (mkState (module s) (world s) (trace s ++ [e])).

(** A call to a collaborator that reads and changes the world; the event
    records the answer. *)
Definition call_world {A} (f : World -> A * World) (ev : A -> Event) : M A :=
  fun s =>
    let '(a, w) := f (world s) in
    Returns a (mkState (module s) w (trace s ++ [ev a])).

(** A call to a query of an immutable collaborator. *)
Definition call_pure {A} (a : A) (ev : A -> Event) : M A :=
  log (ev a) ;;; ret a.

(** [Result<T>::get()]: the value, or a failed check. *)
Definition Result_get {A} (r : Result A) : M A :=
  match r with
  | Value a => ret a
  | Failure _ => halt Abort
  end.

(** [++index] on an [int]. *)
Definition int_incr (index : Z) : M Z :=
  if decide (index = INT_MAX) then halt Undefined else ret (index + 1).

(** ** Constructors *)

Definition with_default (a : option MemoryAllocator) : MemoryAllocator :=
  match a with
  | Some x => x
  | None => MallocMemoryAllocator
  end.

Definition construct (m : Module) (w : World) : State :=
  mkState m (runtime_init w) [Call_runtime_init].

(** [Module(file_path, load_mode, event_tracer)]. *)
Definition Module_from_file (file_path : string) (load_mode : LoadMode)
    (event_tracer : option EventTracer) (w : World) : State :=
  construct
    {| file_path_ := file_path;
       load_mode_ := load_mode;
       data_loader_ := None;
       program_ := None;
       memory_allocator_ := MallocMemoryAllocator;
       temp_allocator_ := MallocMemoryAllocator;
       event_tracer_ := event_tracer;
       methods_ := ∅ |} w.

(** [Module(data_loader, memory_allocator, temp_allocator, event_tracer)]. *)
Definition Module_from_data_loader (data_loader : option DataLoader)
    (memory_allocator temp_allocator : option MemoryAllocator)
    (event_tracer : option EventTracer) (w : World) : State :=
  construct
    {| file_path_ := "";
       load_mode_ := default_load_mode;
       data_loader_ := data_loader;
       program_ := None;
       memory_allocator_ := with_default memory_allocator;
       temp_allocator_ := with_default temp_allocator;
       event_tracer_ := event_tracer;
       methods_ := ∅ |} w.

(** [Module(program, memory_allocator, temp_allocator, event_tracer)]. *)
Definition Module_from_program (program : option Program)
    (memory_allocator temp_allocator : option MemoryAllocator)
    (event_tracer : option EventTracer) (w : World) : State :=
  construct
    {| file_path_ := "";
       load_mode_ := default_load_mode;
       data_loader_ := None;
       program_ := (fun p => mkProgramPtr p None) <$> program;
       memory_allocator_ := with_default memory_allocator;
       temp_allocator_ := with_default temp_allocator;
       event_tracer_ := event_tracer;
       methods_ := ∅ |} w.

(** ** [Module::is_loaded] *)

Definition is_loaded (m : Module) : bool :=
  match program_ m with
  | Some _ => true
  | None => false
  end.

(** ** [Module::load] *)

(** The data loader the load mode asks for. *)
Definition make_data_loader (m : Module) : M (Result DataLoader) :=
  match load_mode_ m with
  | File =>
      call_world (FileDataLoader_from (file_path_ m))
        (Call_FileDataLoader_from (file_path_ m))
  | Mmap =>
      call_world (MmapDataLoader_from (file_path_ m) NoMlock)
        (Call_MmapDataLoader_from (file_path_ m) NoMlock)
  | MmapUseMlock =>
      call_world (MmapDataLoader_from (file_path_ m) UseMlock)
        (Call_MmapDataLoader_from (file_path_ m) UseMlock)
  | MmapUseMlockIgnoreErrors =>
      call_world (MmapDataLoader_from (file_path_ m) UseMlockIgnoreErrors)
        (Call_MmapDataLoader_from (file_path_ m) UseMlockIgnoreErrors)
  end.

Definition set_data_loader (d : option DataLoader) (m : Module) : Module :=
  {| file_path_ := file_path_ m;
     load_mode_ := load_mode_ m;
     data_loader_ := d;
     program_ := program_ m;
     memory_allocator_ := memory_allocator_ m;
     temp_allocator_ := temp_allocator_ m;
     event_tracer_ := event_tracer_ m;
     methods_ := methods_ m |}.

(** [program_ = shared_ptr(program, [data_loader = std::move(data_loader_)])]. *)
Definition set_program (p : Program) (m : Module) : Module :=
  {| file_path_ := file_path_ m;
     load_mode_ := load_mode_ m;
     data_loader_ := None;
     program_ := Some (mkProgramPtr p (data_loader_ m));
     memory_allocator_ := memory_allocator_ m;
     temp_allocator_ := temp_allocator_ m;
     event_tracer_ := event_tracer_ m;
     methods_ := methods_ m |}.

(** The second half of [load]: parse the program from the data loader [d],
    which is [data_loader_.get()]. *)
Definition load_program (d : DataLoader) (verification : Verification)
    : M Error :=
  r <- call_world (Program_load d verification)
         (Call_Program_load d verification) ;;
  match r with
  | Failure c => ret (Err c)
  | Value p =>
      m <- get_module ;;
      set_module (set_program p m) ;;;
      ret Ok
  end.

Definition load (verification : Verification) : M Error :=
  log Call_load ;;;
  m <- get_module ;;
  if is_loaded m then ret Ok
  else
    match data_loader_ m with
    | Some d => load_program d verification
    | None =>
        r <- make_data_loader m ;;
        match r with
        | Failure c => ret (Err c)
        | Value d =>
            set_module (set_data_loader (Some d) m) ;;;
            load_program d verification
        end
    end.

(** [*program_]: the program the module points to. *)
Definition deref_program : M Program :=
  m <- get_module ;;
  match program_ m with
  | Some p => ret (program_object p)
  | None => halt Undefined
  end.

(** ** [Module::method_names] *)

(** The loop over the method indices: [n] iterations are left, [index] is
    the [int] counter, [result] the set built so far. *)
Fixpoint collect_method_names (p : Program) (n : nat) (index : Z)
    (result : gset string) : M (gset string) :=
  match n with
  | O => ret result
  | S n' =>
      r <- call_pure (Program_get_method_name p index)
             (Call_get_method_name index) ;;
      name <- Result_get r ;;
      index' <- int_incr index ;;
      collect_method_names p n' index' (result ∪ {[ name ]})
  end.

Definition method_names : M (Result (gset string)) :=
  e <- load default_verification ;;
  match e with
  | Err c => ret (Failure c)
  | Ok =>
      p <- deref_program ;;
      let method_count := Program_num_methods p in
      result <- collect_method_names p (Z.to_nat method_count) 0 ∅ ;;
      ret (Value result)
  end.

(** ** [Module::is_method_loaded] *)

Definition is_method_loaded (method_name : string) (m : Module) : bool :=
  match methods_ m !! method_name with
  | Some _ => true
  | None => false
  end.

(** ** [Module::load_method] *)

(** [std::vector<uint8_t>(buffer_size)]: [buffer_size] zero bytes. *)
Definition new_planned_buffer (method_name : string) (buffer_size : Z)
    : M (list Byte.byte) :=
  let n := to_size_t buffer_size in
  if decide (VECTOR_MAX_SIZE < n) then halt (Exception length_error)
  else if decide (n = 0) then ret []
  else
    ok <- call_world (operator_new n) (Call_operator_new method_name n) ;;
    if ok : bool then ret (replicate (Z.to_nat n) Byte.x00)
    else halt (Exception bad_alloc).

(** The loop over the memory plan: [n] iterations are left, [index] is the
    [int] counter; [buffers] and [spans] are
    [method_holder.planned_buffers] and [method_holder.planned_spans]. *)
Fixpoint realize_plan (method_name : string) (method_metadata : MethodMeta)
    (n : nat) (index : Z) (buffers : list (list Byte.byte))
    (spans : list Span) : M (list (list Byte.byte) * list Span) :=
  match n with
  | O => ret (buffers, spans)
  | S n' =>
      r <- call_pure
             (MethodMeta_memory_planned_buffer_size method_metadata index)
             (Call_memory_planned_buffer_size method_name index) ;;
      buffer_size <- Result_get r ;;
      buffer <- new_planned_buffer method_name buffer_size ;;
      let buffers' := buffers ++ [buffer] in
      let spans' :=
        spans ++ [mkSpan (length buffers) (to_size_t buffer_size)] in
      index' <- int_incr index ;;
      realize_plan method_name method_metadata n' index' buffers' spans'
  end.

Definition set_methods (ms : gmap string MethodHolder) (m : Module)
    : Module :=
  {| file_path_ := file_path_ m;
     load_mode_ := load_mode_ m;
     data_loader_ := data_loader_ m;
     program_ := program_ m;
     memory_allocator_ := memory_allocator_ m;
     temp_allocator_ := temp_allocator_ m;
     event_tracer_ := event_tracer_ m;
     methods_ := ms |}.

(** [methods_.emplace(method_name, std::move(method_holder))]: nothing is
    inserted when the key is present. *)
Definition emplace_holder (method_name : string) (h : MethodHolder)
    : M unit :=
  m <- get_module ;;
  match methods_ m !! method_name with
  | Some _ => ret tt
  | None =>
      set_module (set_methods (<[method_name := h]> (methods_ m)) m) ;;;
      log (Insert_holder method_name)
  end.

(** The part of [load_method] that follows the metadata lookup. *)
Definition materialize (p : Program) (method_name : string)
    (method_metadata : MethodMeta) : M Error :=
  let planned_buffersCount :=
    MethodMeta_num_memory_planned_buffers method_metadata in
  bs <- realize_plan method_name method_metadata
          (Z.to_nat planned_buffersCount) 0 [] [] ;;
  m <- get_module ;;
  let planned := mkHierarchicalAllocator bs.2 in
  let manager :=
    mkMemoryManager (memory_allocator_ m) planned (temp_allocator_ m) in
  r <- call_world
         (Program_load_method p method_name (memory_allocator_ m) planned
            (temp_allocator_ m) (event_tracer_ m))
         (Call_Program_load_method method_name manager (event_tracer_ m)) ;;
  match r with
  | Failure c => ret (Err c)
  | Value meth =>
      emplace_holder method_name
        (mkMethodHolder bs.1 bs.2 planned manager meth) ;;;
      ret Ok
  end.

Definition load_method (method_name : string) : M Error :=
  m <- get_module ;;
  if is_method_loaded method_name m then ret Ok
  else
    e <- load default_verification ;;
    match e with
    | Err c => ret (Err c)
    | Ok =>
        p <- deref_program ;;
        r <- call_pure (Program_method_meta p method_name)
               (Call_method_meta method_name) ;;
        match r with
        | Failure c => ret (Err c)
        | Value method_metadata => materialize p method_name method_metadata
        end
    end.

(** ** Calls on a cached method *)

(** [methods_.at(method_name)]. *)
Definition methods_at (method_name : string) : M MethodHolder :=
  m <- get_module ;;
  match methods_ m !! method_name with
  | Some h => ret h
  | None => halt (Exception out_of_range)
  end.

Definition set_method (meth : Method) (h : MethodHolder) : MethodHolder :=
  {| planned_buffers := planned_buffers h;
     planned_spans := planned_spans h;
     planned_memory := planned_memory h;
     memory_manager := memory_manager h;
     method := meth |}.

(** A call through the reference [methods_.at(method_name).method]: the
    method object in the cache is the one that changes.  The entry is there
    whenever the source makes such a call, [methods_.at] having returned
    it. *)
Definition call_method {A} (method_name : string)
    (f : Method -> World -> A * Method * World) (ev : A -> Event) : M A :=
  fun s =>
    match methods_ (module s) !! method_name with
    | None => Halts (Exception out_of_range) s
    | Some h =>
        let '(a, meth, w) := f (method h) (world s) in
        Returns a
          (mkState
             (set_methods
                (<[method_name := set_method meth h]> (methods_ (module s)))
                (module s))
             w (trace s ++ [ev a]))
    end.

(** ** [Module::method_meta] *)

Definition method_meta (method_name : string) : M (Result MethodMeta) :=
  e <- load_method method_name ;;
  match e with
  | Err c => ret (Failure c)
  | Ok =>
      h <- methods_at method_name ;;
      ret (Value (Method_method_meta (method h)))
  end.

(** ** [Module::execute] *)

(** The loop that binds the inputs: [input] holds the values from position
    [index] on. *)
Fixpoint bind_inputs (method_name : string) (input : list EValue)
    (index : Z) : M Error :=
  match input with
  | [] => ret Ok
  | v :: rest =>
      e <- call_method method_name (fun meth => Method_set_input meth v index)
             (Call_set_input method_name v index) ;;
      match e with
      | Err c => ret (Err c)
      | Ok =>
          index' <- int_incr index ;;
          bind_inputs method_name rest index'
      end
  end.

(** The array [outputs] after [get_outputs] wrote into it. *)
Definition written_over (outputs : list EValue)
    (written : nat -> option EValue) : list EValue :=
  imap (fun i v => default v (written i)) outputs.

(** The part of [execute] that follows the binding of the inputs.  The
    vector [outputs] is built with [outputs_size] default values; that its
    construction may throw is left out. *)
Definition run_and_collect (method_name : string)
    : M (Result (list EValue)) :=
  e <- call_method method_name Method_execute (Call_execute method_name) ;;
  match e with
  | Err c => ret (Failure c)
  | Ok =>
      h <- methods_at method_name ;;
      let outputs_size := Method_outputs_size (method h) in
      let outputs := replicate (Z.to_nat outputs_size) EValue_default in
      r <- call_method method_name
             (fun meth => Method_get_outputs meth outputs_size)
             (fun r => Call_get_outputs method_name outputs_size r.1) ;;
      match r.1 with
      | Err c => ret (Failure c)
      | Ok => ret (Value (written_over outputs r.2))
      end
  end.

Definition execute (method_name : string) (input : list EValue)
    : M (Result (list EValue)) :=
  e <- load_method method_name ;;
  match e with
  | Err c => ret (Failure c)
  | Ok =>
      methods_at method_name ;;;
      e <- bind_inputs method_name input 0 ;;
      match e with
      | Err c => ret (Failure c)
      | Ok => run_and_collect method_name
      end
  end.

(** ** [Module::set_output_data_ptr] *)

Definition set_output_data_ptr (output_tensor : Tensor) (output_index : Z)
    : M Error :=
  e <- load_method "forward" ;;
  match e with
  | Err c => ret (Err c)
  | Ok =>
      methods_at "forward" ;;;
      call_method "forward"
        (fun meth =>
           Method_set_output_data_ptr meth
             (Tensor_mutable_data_ptr output_tensor)
             (Tensor_nbytes output_tensor) output_index)
        (Call_set_output_data_ptr "forward"
           (Tensor_mutable_data_ptr output_tensor)
           (Tensor_nbytes output_tensor) output_index)
  end.

(** ** Sequences of calls on one module *)

(** What a caller can do with a module; [Outside] is a change of the world
    made by the rest of the process between two calls. *)
Inductive ApiCall : Type :=
| Do_load (verification : Verification)
| Do_method_names
| Do_load_method (method_name : string)
| Do_method_meta (method_name : string)
| Do_execute (method_name : string) (input : list EValue)
| Do_set_output_data_ptr (output_tensor : Tensor) (output_index : Z)
| Outside (change : World -> World).

Definition outside (change : World -> World) : M unit :=
  fun s => Returns tt (mkState (module s) (change (world s)) (trace s)).

Definition run_call (c : ApiCall) : M unit :=
  match c with
  | Do_load v => load v ;;; ret tt
  | Do_method_names => method_names ;;; ret tt
  | Do_load_method n => load_method n ;;; ret tt
  | Do_method_meta n => method_meta n ;;; ret tt
  | Do_execute n input => execute n input ;;; ret tt
  | Do_set_output_data_ptr t i => set_output_data_ptr t i ;;; ret tt
  | Outside f => outside f
  end.

(** The state after a sequence of calls.  A caller may catch an exception
    and go on with the module as the exception left it; after [Abort] or
    undefined behaviour nothing follows. *)
Fixpoint run_calls (cs : list ApiCall) (s : State) : State :=
  match cs with
  | [] => s
  | c :: cs' =>
      match run_call c s with
      | Returns _ s' => run_calls cs' s'
      | Halts (Exception _) s' => run_calls cs' s'
      | Halts _ s' => s'
      end
  end.

(** ** Reading the trace *)

Fixpoint count_events (f : Event -> bool) (t : list Event) : nat :=
  match t with
  | [] => 0%nat
  | e :: t' => ((if f e then 1 else 0) + count_events f t')%nat
  end.

(** A data loader came into being. *)
Definition constructs_accessor (e : Event) : bool :=
  match e with
  | Call_FileDataLoader_from _ (Value _) => true
  | Call_MmapDataLoader_from _ _ (Value _) => true
  | _ => false
  end.

(** A data loader was asked for, with or without success. *)
Definition requests_accessor (e : Event) : bool :=
  match e with
  | Call_FileDataLoader_from _ _ => true
  | Call_MmapDataLoader_from _ _ _ => true
  | _ => false
  end.

(** A program was parsed. *)
Definition parses_program (e : Event) : bool :=
  match e with
  | Call_Program_load _ _ (Value _) => true
  | _ => false
  end.

(** A parse was asked for, with or without success. *)
Definition requests_parse (e : Event) : bool :=
  match e with
  | Call_Program_load _ _ _ => true
  | _ => false
  end.

Definition enters_load (e : Event) : bool :=
  match e with
  | Call_load => true
  | _ => false
  end.

(** A holder was put in the cache under [method_name]. *)
Definition inserts_holder (method_name : string) (e : Event) : bool :=
  match e with
  | Insert_holder n => bool_decide (n = method_name)
  | _ => false
  end.

(** The method was run. *)
Definition runs_method (e : Event) : bool :=
  match e with
  | Call_execute _ _ => true
  | _ => false
  end.

(** The events of binding [input] from position [index] on, all with
    success. *)
Fixpoint bind_events (method_name : string) (input : list EValue)
    (index : Z) : list Event :=
  match input with
  | [] => []
  | v :: rest =>
      Call_set_input method_name v index Ok
      :: bind_events method_name rest (index + 1)
  end.

(** The spans of a memory plan: one per planned buffer, in plan order, each
    pointing at the buffer of its position. *)
Definition spans_of_buffers (buffers : list (list Byte.byte)) : list Span :=
  imap (fun i b => mkSpan i (Z.of_nat (length b))) buffers.

End WithRuntime.

Arguments Returns {RT A} a s.
Arguments Halts {RT A} h s.

Notation "x <- c ;; k" := (bind c (fun x => k))
  (at level 100, c at next level, right associativity).
Notation "c ;;; k" := (bind c (fun _ => k))
  (at level 100, right associativity).

(** * A small runtime to run the module on *)

Module Demo.

(** Tagged runtime values. *)
Inductive DValue : Type :=
| VNone
| VInt (z : Z)
| VTensor (data : list Z).

(** What the program file says about one method. *)
Record MethodData : Type := mkMethodData {
  md_name : string;
  md_plan : list Z;          (* sizes of the planned buffers *)
  md_inputs : nat;           (* declared input arity *)
  md_outputs : nat;          (* declared output arity *)
  md_strict : bool;          (* does a run refuse unbound inputs? *)
}.

Definition ProgramData : Type := list MethodData.

(** The world: the files by path ([None] is a file that does not parse),
    and the heap space left. *)
Record DWorld : Type := mkDWorld {
  files : list (string * option ProgramData);
  heap_free : Z;
}.

Fixpoint find_file (path : string) (fs : list (string * option ProgramData))
    : option (option ProgramData) :=
  match fs with
  | [] => None
  | (p, c) :: fs' => if decide (p = path) then Some c else find_file path fs'
  end.

Fixpoint find_method (name : string) (p : ProgramData) : option MethodData :=
  match p with
  | [] => None
  | d :: p' => if decide (md_name d = name) then Some d else find_method name p'
  end.

(** Modelled from the spec: a materialized [Method] (runtime/executor/method.cpp
    is not part of the sources at hand), "bound 1:1" to its allocator bundle,
    with one slot per declared input and per declared output. *)
Record DMethod : Type := mkDMethod {
  dm_data : MethodData;
  dm_planned : list Span;
  dm_inputs : list (option DValue);
  dm_outputs : list DValue;
  dm_output_ptrs : list (option (nat * Z));
}.

Record DTensor : Type := mkDTensor {
  dt_data_ptr : nat;
  dt_nbytes : Z;
}.

Inductive DVerification : Type :=
| Minimal
| InternalConsistency.

Definition open_file (path : string) (w : DWorld)
    : Result (option ProgramData) * DWorld :=
  match find_file path (files w) with
  | Some c => (Value c, w)
  | None => (Failure AccessorConstructionError, w)
  end.

Definition parse (d : option ProgramData) (v : DVerification) (w : DWorld)
    : Result ProgramData * DWorld :=
  match d with
  | Some p => (Value p, w)
  | None => (Failure ProgramParseError, w)
  end.

Definition get_method_name (p : ProgramData) (index : Z) : Result string :=
  if decide (0 <= index) then
    match p !! Z.to_nat index with
    | Some d => Value (md_name d)
    | None => Failure MethodNotFoundError
    end
  else Failure MethodNotFoundError.

Definition lookup_meta (p : ProgramData) (name : string)
    : Result MethodData :=
  match find_method name p with
  | Some d => Value d
  | None => Failure MethodNotFoundError
  end.

Definition buffer_size (d : MethodData) (index : Z) : Result Z :=
  if decide (0 <= index) then
    match md_plan d !! Z.to_nat index with
    | Some n => Value n
    | None => Failure MetadataError
    end
  else Failure MetadataError.

Definition heap_request (n : Z) (w : DWorld) : bool * DWorld :=
  if decide (n <= heap_free w)
  then (true, mkDWorld (files w) (heap_free w - n))
  else (false, w).

(** Modelled from the spec: materialization "fails if the name is unknown or
    the bundle's buffer layout is inconsistent with the compiled plan". *)
Definition materialize_method (p : ProgramData) (name : string)
    (persistent : unit) (planned : HierarchicalAllocator) (temp : unit)
    (tracer : option unit) (w : DWorld) : Result DMethod * DWorld :=
  match find_method name p with
  | None => (Failure MethodNotFoundError, w)
  | Some d =>
      if decide (span_size <$> hierarchical_spans planned = md_plan d)
      then
        (Value
           (mkDMethod d (hierarchical_spans planned)
              (replicate (md_inputs d) None)
              (replicate (md_outputs d) VNone)
              (replicate (md_outputs d) None)), w)
      else (Failure MethodMaterializationError, w)
  end.

(** Modelled from the spec: binding a value to an ordinal input slot; a
    position outside the declared arity is a binding failure. *)
Definition set_input (m : DMethod) (v : DValue) (index : Z) (w : DWorld)
    : Error * DMethod * DWorld :=
  if decide (0 <= index < Z.of_nat (md_inputs (dm_data m))) then
    (Ok,
     mkDMethod (dm_data m) (dm_planned m)
       (<[Z.to_nat index := Some v]> (dm_inputs m))
       (dm_outputs m) (dm_output_ptrs m), w)
  else (Err InputBindingError, m, w).

Definition all_bound (m : DMethod) : bool :=
  forallb (fun o => match o with Some _ => true | None => false end)
    (dm_inputs m).

(** A run: output [j] is what input slot [j] holds.  A strict method refuses
    to run with an unbound input. *)
Definition run (m : DMethod) (w : DWorld) : Error * DMethod * DWorld :=
  if md_strict (dm_data m) && negb (all_bound m)
  then (Err ExecutionError, m, w)
  else
    (Ok,
     mkDMethod (dm_data m) (dm_planned m) (dm_inputs m)
       (imap (fun j _ => default VNone (mjoin (dm_inputs m !! j)))
          (dm_outputs m))
       (dm_output_ptrs m), w).

Definition outputs_size (m : DMethod) : Z :=
  Z.of_nat (md_outputs (dm_data m)).

Definition get_outputs (m : DMethod) (n : Z) (w : DWorld)
    : Error * (nat -> option DValue) * DMethod * DWorld :=
  if decide (n < outputs_size m)
  then (Err OutputRetrievalError, fun _ => None, m, w)
  else
    (Ok,
     fun i =>
       if decide (Z.of_nat i < n)
       then Some (default VNone (dm_outputs m !! i))
       else None,
     m, w).

Definition bind_output_ptr (m : DMethod) (p : nat) (nbytes : Z)
    (index : Z) (w : DWorld) : Error * DMethod * DWorld :=
  if decide (0 <= index < outputs_size m) then
    (Ok,
     mkDMethod (dm_data m) (dm_planned m) (dm_inputs m) (dm_outputs m)
       (<[Z.to_nat index := Some (p, nbytes)]> (dm_output_ptrs m)), w)
  else (Err OutputRetrievalError, m, w).

#[export] Instance runtime : Runtime := {|
  World := DWorld;
  DataLoader := option ProgramData;
  Program := ProgramData;
  MethodMeta := MethodData;
  Method := DMethod;
  EValue := DValue;
  Tensor := DTensor;
  Pointer := nat;
  EventTracer := unit;
  MemoryAllocator := unit;
  Verification := DVerification;
  default_verification := Minimal;
  default_load_mode := MmapUseMlock;
  MallocMemoryAllocator := tt;
  EValue_default := VNone;
  runtime_init := fun w => w;
  FileDataLoader_from := open_file;
  MmapDataLoader_from := fun path _ => open_file path;
  Program_load := parse;
  Program_num_methods := fun p => Z.of_nat (length p);
  Program_get_method_name := get_method_name;
  Program_method_meta := lookup_meta;
  MethodMeta_num_memory_planned_buffers := fun d => Z.of_nat (length (md_plan d));
  MethodMeta_memory_planned_buffer_size := buffer_size;
  operator_new := heap_request;
  Program_load_method := materialize_method;
  Method_set_input := set_input;
  Method_execute := run;
  Method_outputs_size := outputs_size;
  Method_get_outputs := get_outputs;
  Method_set_output_data_ptr := bind_output_ptr;
  Method_method_meta := dm_data;
  Tensor_mutable_data_ptr := dt_data_ptr;
  Tensor_nbytes := dt_nbytes;
|}.

(** A program with three methods. *)
Definition forward : MethodData := mkMethodData "forward" [128; 256] 2 2 false.
Definition strict : MethodData := mkMethodData "strict" [] 2 1 true.
Definition identity : MethodData := mkMethodData "identity" [16] 1 1 false.

Definition model : ProgramData := [forward; strict; identity].

(** A world with that program at "model.pte", a file that does not parse at
    "broken.pte", and room on the heap. *)
Definition world0 : DWorld :=
  mkDWorld [("model.pte", Some model); ("broken.pte", None)] 4096.

(** The same files and almost no heap. *)
Definition world_small : DWorld :=
  mkDWorld [("model.pte", Some model); ("broken.pte", None)] 100.

(** A fresh module on "model.pte". *)
Definition fresh : State :=
  Module_from_file "model.pte" File None world0.

(** A fresh module on a path where there is no file. *)
Definition fresh_missing : State :=
  Module_from_file "later.pte" File None world0.

(** The file appears. *)
Definition install (w : DWorld) : DWorld :=
  mkDWorld (("later.pte", Some model) :: files w) (heap_free w).

(** The fresh module after [load()], and after [load_method("forward")]. *)
Definition parsed : State := final_state (load Minimal fresh).
Definition loaded : State := final_state (load_method "forward" fresh).

(** The method object and the holder [load_method("forward")] builds. *)
Definition forward_spans : list Span := [mkSpan 0 128; mkSpan 1 256].

Definition forward_method : DMethod :=
  mkDMethod forward forward_spans [None; None] [VNone; VNone] [None; None].

Definition forward_holder : MethodHolder :=
  mkMethodHolder
    [replicate 128 Byte.x00; replicate 256 Byte.x00]
    forward_spans
    (mkHierarchicalAllocator forward_spans)
    (mkMemoryManager tt (mkHierarchicalAllocator forward_spans) tt)
    forward_method.

(** The methods with two declared inputs. *)
Definition two_inputs (m : DMethod) : Prop := md_inputs (dm_data m) = 2%nat.

End Demo.

(** * The variance kernel, op_var.cpp *)

Module OpVar.

Section Kernel.

(** Tensors, the element types the type switch selects, and the helpers of
    reduce_util.h are those of the runtime. *)
Variables Tensor CTYPE_IN CTYPE_OUT : Type.

(** [optional<ArrayRef<int64_t>>]. *)
Definition DimList : Type := option (list Z).

Variable NAN : CTYPE_OUT.
(** [static_cast<CTYPE_OUT>(v)]. *)
Variable cast : CTYPE_IN -> CTYPE_OUT.
(** The conversion of a [size_t] operand to [CTYPE_OUT]. *)
Variable of_size_t : Z -> CTYPE_OUT.
Variables add sub mul div : CTYPE_OUT -> CTYPE_OUT -> CTYPE_OUT.

Variable check_preconditions : Tensor -> DimList -> bool -> Tensor -> bool.
Variable resize_reduction_out :
  Tensor -> DimList -> bool -> Tensor -> Error * Tensor.
(** Does [ET_SWITCH_FLOAT_TYPES] find a case for the tensor's type? *)
Variable is_float_type : Tensor -> bool.
Variable numel : Tensor -> Z.
Variable get_reduced_dim_product : Tensor -> DimList -> Z.
Variable map_reduce_over_dim_list :
  (CTYPE_IN -> CTYPE_OUT) -> (CTYPE_OUT -> CTYPE_OUT -> CTYPE_OUT) ->
  Tensor -> DimList -> Z -> CTYPE_OUT.

(** A division the kernel performs, with its [size_t] divisor. *)
Record Division : Type := mkDivision {
  dividend : CTYPE_OUT;
  divisor : Z;
}.

(** [a / n] for a [size_t] [n], and the record of it. *)
Definition divide (a : CTYPE_OUT) (n : Z) : CTYPE_OUT * Division :=
  (div a (of_size_t n), mkDivision a n).

(** [const size_t denominator = unbiased ? num - 1 : num]. *)
Definition denominator_of (unbiased : bool) (num : Z) : Z :=
  if unbiased then to_size_t (num - 1) else num.

(** The body of the second loop for one [out_ix]: the value stored in
    [out_data[out_ix]] and the divisions made. *)
Definition var_element (inp : Tensor) (dim_list : DimList)
    (num denominator : Z) (out_ix : Z) : CTYPE_OUT * list Division :=
  let sum :=
    map_reduce_over_dim_list
      (fun v => cast v) (fun outv acc => add acc outv) inp dim_list out_ix in
  let mean := divide sum num in
  let sum2 :=
    map_reduce_over_dim_list
      (fun v => mul (sub (cast v) mean.1) (sub (cast v) mean.1))
      (fun outv acc => add acc outv) inp dim_list out_ix in
  let result := divide sum2 denominator in
  (result.1, [mean.2; result.2]).

(** The positions [0 .. n-1] of a loop over a [size_t] counter. *)
Definition positions (n : Z) : list Z :=
  Z.of_nat <$> seq 0 (Z.to_nat n).

(** The lambda under the two type switches: the contents of [out_data] and
    the divisions made, in order. *)
Definition var_kernel (inp : Tensor) (dim_list : DimList) (unbiased : bool)
    (out : Tensor) : list CTYPE_OUT * list Division :=
  let num := to_size_t (get_reduced_dim_product inp dim_list) in
  let denominator := denominator_of unbiased num in
  if (num =? 0) || (denominator =? 0) then
    ((fun _ => NAN) <$> positions (to_size_t (numel out)), [])
  else
    let elements :=
      var_element inp dim_list num denominator
        <$> positions (to_size_t (numel out)) in
    (fst <$> elements, concat (snd <$> elements)).

(** [var_out]: [None] when one of the runtime checks ends the process. *)
Definition var_out (inp : Tensor) (dim_list : DimList)
    (unbiased keepdim : bool) (out : Tensor)
    : option (list CTYPE_OUT * list Division) :=
  if negb (check_preconditions inp dim_list keepdim out) then None
  else
    match resize_reduction_out inp dim_list keepdim out with
    | (Err _, _) => None
    | (Ok, out') =>
        if is_float_type inp && is_float_type out'
        then Some (var_kernel inp dim_list unbiased out')
        else None
    end.

End Kernel.

Arguments mkDivision {CTYPE_OUT} dividend divisor.
Arguments dividend {CTYPE_OUT} d.
Arguments divisor {CTYPE_OUT} d.

(** An instance to run the kernel on: tensors are lists of rationals given as
    numerator and denominator, reduced over all their elements; a division by
    zero gives the not-a-number value [None]. *)
Definition Q2 : Type := option (Z * Z).

Definition q_add (a b : Q2) : Q2 :=
  match a, b with
  | Some (n1, d1), Some (n2, d2) => Some (n1 * d2 + n2 * d1, d1 * d2)
  | _, _ => None
  end.

Definition q_sub (a b : Q2) : Q2 :=
  match a, b with
  | Some (n1, d1), Some (n2, d2) => Some (n1 * d2 - n2 * d1, d1 * d2)
  | _, _ => None
  end.

Definition q_mul (a b : Q2) : Q2 :=
  match a, b with
  | Some (n1, d1), Some (n2, d2) => Some (n1 * n2, d1 * d2)
  | _, _ => None
  end.

Definition q_div (a b : Q2) : Q2 :=
  match a, b with
  | Some (n1, d1), Some (n2, d2) =>
      if decide (n2 = 0) then None else Some (n1 * d2, d1 * n2)
  | _, _ => None
  end.

Definition q_map_reduce (f : Z -> Q2) (g : Q2 -> Q2 -> Q2) (t : list Z)
    (dims : DimList) (out_ix : Z) : Q2 :=
  match t with
  | [] => None
  | x :: rest => foldl (fun acc v => g (f v) acc) (f x) rest
  end.

(** [var_out] on lists of integers, reducing over everything into one
    element. *)
Definition demo_var_out (t : list Z) (unbiased : bool)
    : option (list Q2 * list (Division Q2)) :=
  var_out (list Z) Z Q2 None (fun z => Some (z, 1)) (fun z => Some (z, 1))
    q_add q_sub q_mul q_div
    (fun _ _ _ _ => true) (fun _ _ _ out => (Ok, out)) (fun _ => true)
    (fun _ => 1) (fun t _ => Z.of_nat (length t)) q_map_reduce
    t None unbiased false [].

End OpVar.

(** * Relations between the state before and after a call *)

Section Relations.

Context `{RT : Runtime}.

(** [R] relates every state to the state in which the computation ends,
    however it ends. *)
Definition always {A} (R : State -> State -> Prop) (c : M A) : Prop :=
  forall s, R s (final_state (c s)).

Definition accessors_made (s : State) : nat :=
  count_events constructs_accessor (trace s).

Definition programs_parsed (s : State) : nat :=
  count_events parses_program (trace s).

Definition holders_inserted (method_name : string) (s : State) : nat :=
  count_events (inserts_holder method_name) (trace s).

(** At most one accessor and one program were made, and none as long as the
    corresponding field is empty. *)
Definition load_invariant (s : State) : Prop :=
  (accessors_made s <= 1)%nat /\
  (programs_parsed s <= 1)%nat /\
  (program_ (module s) = None ->
     programs_parsed s = 0%nat /\
     (data_loader_ (module s) = None -> accessors_made s = 0%nat)).

(** At most one holder was inserted under the name, and none as long as the
    cache has no entry for it. *)
Definition holder_invariant (method_name : string) (s : State) : Prop :=
  (holders_inserted method_name s <= 1)%nat /\
  (methods_ (module s) !! method_name = None ->
     holders_inserted method_name s = 0%nat).

Definition invariant (s : State) : Prop :=
  load_invariant s /\ forall n, holder_invariant n s.

(** What every operation of the module keeps. *)
Record keeps (s s' : State) : Prop := mkKeeps {
  keeps_invariant : invariant s -> invariant s';
  keeps_program :
    forall p, program_ (module s) = Some p -> program_ (module s') = Some p;
  keeps_methods :
    forall n, is_Some (methods_ (module s) !! n) ->
              is_Some (methods_ (module s') !! n);
  keeps_memory_allocator :
    memory_allocator_ (module s') = memory_allocator_ (module s);
  keeps_temp_allocator :
    temp_allocator_ (module s') = temp_allocator_ (module s);
  keeps_event_tracer : event_tracer_ (module s') = event_tracer_ (module s);
}.

(** The cache entries under other names are left alone. *)
Definition others_untouched (method_name : string) (s s' : State) : Prop :=
  forall n, n ≠ method_name ->
            methods_ (module s') !! n = methods_ (module s) !! n.

(** [Module::load] was not entered. *)
Definition no_load_entered (s s' : State) : Prop :=
  count_events enters_load (trace s') = count_events enters_load (trace s).

(** No accessor or parse was asked for and the method was not run. *)
Definition no_request (s s' : State) : Prop :=
  count_events requests_accessor (trace s')
  = count_events requests_accessor (trace s) /\
  count_events requests_parse (trace s')
  = count_events requests_parse (trace s).

(** An event that none of the counters of the invariant counts. *)
Definition quiet (e : Event) : Prop :=
  constructs_accessor e = false /\ parses_program e = false /\
  forall n, inserts_holder n e = false.

(** The method object cached under the name, if any. *)
Definition cached_method (method_name : string) (s : State)
    : option Method :=
  method <$> methods_ (module s) !! method_name.

(** The state after a call on the cached method returned [meth] and [w] and
    left the event [e]. *)
Definition after_method_call (method_name : string) (h : MethodHolder)
    (meth : Method) (w : World) (e : Event) (s : State) : State :=
  mkState
    (set_methods
       (<[method_name := set_method meth h]> (methods_ (module s)))
       (module s))
    w (trace s ++ [e]).

(** The state with one more event in its trace. *)
Definition logged (e : Event) (s : State) : State :=
  mkState (module s) (world s) (trace s ++ [e]).

(** The planned buffer of a given size. *)
Definition zero_buffer (size : Z) : list Byte.byte :=
  replicate (Z.to_nat size) Byte.x00.

(** The cache is the same. *)
Definition same_methods (s s' : State) : Prop :=
  methods_ (module s') = methods_ (module s).

(** Modelled from the spec: a method of declared input arity [K]
    ([Method::set_input] is in runtime/executor/method.cpp, not part of the
    sources at hand).  [has_arity] holds of the method objects of that
    arity: binding keeps it, and a bind at a position that is not below [K]
    fails.  Nothing is asked of the binds at the positions below [K]: the
    method may refuse a value there for reasons of its own. *)
Definition set_input_rejects_beyond (K : Z) (has_arity : Method -> Prop)
    : Prop :=
  forall meth v index w,
    has_arity meth ->
    has_arity (Method_set_input meth v index w).1.2 /\
    (K <= index -> (Method_set_input meth v index w).1.1 <> Ok).

(** Modelled from the spec: its taxonomy of errors has one kind for a bind
    that fails, [InputBindingError]. *)
Definition binding_failures (has_arity : Method -> Prop) : Prop :=
  forall meth v index w,
    has_arity meth ->
    (Method_set_input meth v index w).1.1 <> Ok ->
    (Method_set_input meth v index w).1.1 = Err InputBindingError.

(** Modelled from the spec: [Method::get_outputs] "fills" the array it is
    given: it writes every position below the size it is told. *)
Definition get_outputs_fills (meth : Method) (n : Z) (w : World) : Prop :=
  forall i : nat, Z.of_nat i < n ->
                  is_Some ((Method_get_outputs meth n w).1.1.2 i).

(** The state is the one a constructor of [Module] leaves. *)
Definition constructed (s : State) : Prop :=
  (exists path mode tracer w, s = Module_from_file path mode tracer w) \/
  (exists d a t tracer w, s = Module_from_data_loader d a t tracer w) \/
  (exists p a t tracer w, s = Module_from_program p a t tracer w).

End Relations.

(** * Further relations between states *)

Section MoreRelations.

Context `{RT : Runtime}.

(** An event of [Module::load]: its entry, a request for an accessor or a
    request for a parse. *)
Definition load_event (e : Event) : bool :=
  enters_load e || requests_accessor e || requests_parse e.

(** A call that [execute] makes on the method cached under the name. *)
Definition method_event (method_name : string) (e : Event) : bool :=
  match e with
  | Call_set_input n _ _ _ => bool_decide (n = method_name)
  | Call_execute n _ => bool_decide (n = method_name)
  | Call_get_outputs n _ _ => bool_decide (n = method_name)
  | _ => false
  end.

(** Once a program is set it stays the same one, and storage is not asked
    for anything. *)
Definition storage_quiet (s s' : State) : Prop :=
  is_loaded (module s) = true ->
  program_ (module s') = program_ (module s) /\ no_request s s'.

(** Once the module has a data loader, or a program, it keeps one, and no
    accessor is asked for. *)
Definition loader_kept (s s' : State) : Prop :=
  is_Some (data_loader_ (module s)) \/ is_Some (program_ (module s)) ->
  (is_Some (data_loader_ (module s')) \/ is_Some (program_ (module s'))) /\
  count_events requests_accessor (trace s')
  = count_events requests_accessor (trace s).

(** Two holders with as many planned buffers, of the same sizes, and the
    same spans, planned memory and memory manager.  What the buffers hold is
    not compared: a method writes into them. *)
Definition same_frame (h h' : MethodHolder) : Prop :=
  length <$> planned_buffers h' = length <$> planned_buffers h /\
  planned_spans h' = planned_spans h /\
  planned_memory h' = planned_memory h /\
  memory_manager h' = memory_manager h.

(** Every cached holder is still cached, with buffers of the same sizes and
    the same spans, planned memory and memory manager. *)
Definition holders_stable (s s' : State) : Prop :=
  forall n h,
    methods_ (module s) !! n = Some h ->
    exists h', methods_ (module s') !! n = Some h' /\ same_frame h h'.

(** The fields set by the constructor and never assigned afterwards. *)
Definition same_configuration (s s' : State) : Prop :=
  file_path_ (module s') = file_path_ (module s) /\
  load_mode_ (module s') = load_mode_ (module s) /\
  memory_allocator_ (module s') = memory_allocator_ (module s) /\
  temp_allocator_ (module s') = temp_allocator_ (module s) /\
  event_tracer_ (module s') = event_tracer_ (module s).

(** A holder as [load_method] assembles it for the module [m]: one span per
    planned buffer, pointing at it and of its size; the hierarchical
    allocator over these spans; a memory manager made of the module's
    allocator, that hierarchical allocator and the module's temporary
    allocator. *)
Definition holder_well_formed (m : Module) (h : MethodHolder) : Prop :=
  planned_spans h = spans_of_buffers (planned_buffers h) /\
  hierarchical_spans (planned_memory h) = planned_spans h /\
  method_allocator (memory_manager h) = memory_allocator_ m /\
  planned_memory_of (memory_manager h) = planned_memory h /\
  temp_allocator_of (memory_manager h) = temp_allocator_ m.

Definition cache_well_formed (s : State) : Prop :=
  forall n h,
    methods_ (module s) !! n = Some h -> holder_well_formed (module s) h.

Definition keeps_well_formed (s s' : State) : Prop :=
  same_configuration s s' /\ (cache_well_formed s -> cache_well_formed s').

(** The trace grows by calls on the method cached under the name, and by
    nothing else. *)
Definition only_method_events (method_name : string) (s s' : State)
    : Prop :=
  exists evs,
    trace s' = trace s ++ evs /\
    Forall (fun e => method_event method_name e = true) evs.

(** Only the cache may differ between the two modules. *)
Definition only_cache_changes (s s' : State) : Prop :=
  module s' = set_methods (methods_ (module s')) (module s).

(** The events of a run of [execute] on a cached method that succeeds at
    every stage. *)
Definition execute_events (method_name : string) (input : list EValue)
    (outputs_size : Z) : list Event :=
  bind_events method_name input 0
  ++ [Call_execute method_name Ok;
      Call_get_outputs method_name outputs_size Ok].

End MoreRelations.

(** * More to run the module on *)

Module Faulty.

Import Demo.

(** A method whose memory plan has a negative size. *)
Definition negative : MethodData :=
  mkMethodData "negative" [16; -1; 32] 1 1 false.

Definition bad_model : ProgramData := [negative; identity].

Definition bad_world : DWorld :=
  mkDWorld [("bad.pte", Some bad_model); ("broken.pte", None)] 4096.

(** A fresh module on the program with the negative size, one on the file
    that does not parse, and one given that file's data loader. *)
Definition fresh_bad : State :=
  Module_from_file "bad.pte" Mmap None bad_world.

Definition fresh_broken : State :=
  Module_from_file "broken.pte" File None world0.

Definition fresh_injected : State :=
  Module_from_data_loader (Some (Some model)) None None None world0.

Definition fresh_from_program : State :=
  Module_from_program (Some model) None None None world0.

(** The runtime of [Demo], with a program that counts one method more than
    it has names for. *)
Definition miscounting : Runtime := {|
  World := DWorld;
  DataLoader := option ProgramData;
  Program := ProgramData;
  MethodMeta := MethodData;
  Method := DMethod;
  EValue := DValue;
  Tensor := DTensor;
  Pointer := nat;
  EventTracer := unit;
  MemoryAllocator := unit;
  Verification := DVerification;
  default_verification := Minimal;
  default_load_mode := MmapUseMlock;
  MallocMemoryAllocator := tt;
  EValue_default := VNone;
  runtime_init := fun w => w;
  FileDataLoader_from := open_file;
  MmapDataLoader_from := fun path _ => open_file path;
  Program_load := parse;
  Program_num_methods := fun p => Z.of_nat (length p) + 1;
  Program_get_method_name := get_method_name;
  Program_method_meta := lookup_meta;
  MethodMeta_num_memory_planned_buffers :=
    fun d => Z.of_nat (length (md_plan d));
  MethodMeta_memory_planned_buffer_size := buffer_size;
  operator_new := heap_request;
  Program_load_method := materialize_method;
  Method_set_input := set_input;
  Method_execute := run;
  Method_outputs_size := outputs_size;
  Method_get_outputs := get_outputs;
  Method_set_output_data_ptr := bind_output_ptr;
  Method_method_meta := dm_data;
  Tensor_mutable_data_ptr := dt_data_ptr;
  Tensor_nbytes := dt_nbytes;
|}.

Definition fresh_miscounting : State (RT := miscounting) :=
  Module_from_file (RT := miscounting) "model.pte" File None world0.

End Faulty.


(** * Properties of the module *)

Section Proofs.

Context `{RT : Runtime}.

Lemma count_events_app (f : Event -> bool) (t1 t2 : list Event) :
  count_events f (t1 ++ t2)
  = (count_events f t1 + count_events f t2)%nat.
Proof.
  induction t1 as [|e t1 IH]; simpl; [done|]. rewrite IH. lia.
Qed.

Lemma count_events_snoc (f : Event -> bool) (t : list Event) (e : Event) :
  count_events f (t ++ [e])
  = (count_events f t + if f e then 1 else 0)%nat.
Proof. rewrite count_events_app. simpl. lia. Qed.

(** ** Rules for [always] *)

Lemma always_ret {A} (R : State -> State -> Prop) `{!Reflexive R} (a : A) :
  always R (ret a).
Proof. intros s. simpl. reflexivity. Qed.

Lemma always_halt {A} (R : State -> State -> Prop) `{!Reflexive R}
    (h : Halt) :
  always R (halt (A := A) h).
Proof. intros s. simpl. reflexivity. Qed.

Lemma always_bind {A B} (R : State -> State -> Prop) `{!Transitive R}
    (c : M A) (k : A -> M B) :
  always R c -> (forall a, always R (k a)) -> always R (bind c k).
Proof.
  intros Hc Hk s. unfold bind. specialize (Hc s).
  destruct (c s) as [a s1|h s1]; simpl in *; [|done].
  etrans; [exact Hc|apply Hk].
Qed.

Lemma always_get_module (R : State -> State -> Prop) `{!Reflexive R} :
  always R get_module.
Proof. intros s. simpl. reflexivity. Qed.

Lemma always_Result_get {A} (R : State -> State -> Prop) `{!Reflexive R}
    (r : Result A) :
  always R (Result_get r).
Proof. destruct r; intros s; simpl; reflexivity. Qed.

Lemma always_int_incr (R : State -> State -> Prop) `{!Reflexive R}
    (index : Z) :
  always R (int_incr index).
Proof. unfold int_incr. case_decide; intros s; simpl; reflexivity. Qed.

Lemma always_deref_program (R : State -> State -> Prop) `{!Reflexive R} :
  always R deref_program.
Proof.
  intros s. unfold deref_program, bind, get_module.
  destruct (program_ (module s)); simpl; reflexivity.
Qed.

Lemma always_methods_at (R : State -> State -> Prop) `{!Reflexive R}
    (n : string) :
  always R (methods_at n).
Proof.
  intros s. unfold methods_at, bind, get_module.
  destruct (methods_ (module s) !! n); simpl; reflexivity.
Qed.

(** ** [keeps] is a preorder *)

#[local] Instance keeps_reflexive : Reflexive keeps.
Proof. intros s. by split. Qed.

#[local] Instance keeps_transitive : Transitive keeps.
Proof.
  intros s1 s2 s3 [] []. split; intros; eauto; by etrans.
Qed.

#[local] Instance others_untouched_reflexive n :
  Reflexive (others_untouched n).
Proof. by intros s m Hm. Qed.

#[local] Instance others_untouched_transitive n :
  Transitive (others_untouched n).
Proof.
  intros s1 s2 s3 H12 H23 m Hm. rewrite H23, H12; done.
Qed.

#[local] Instance no_load_entered_reflexive : Reflexive no_load_entered.
Proof. by intros s. Qed.

#[local] Instance no_load_entered_transitive : Transitive no_load_entered.
Proof. unfold no_load_entered. intros s1 s2 s3 H12 H23. congruence. Qed.

#[local] Instance no_request_reflexive : Reflexive no_request.
Proof. by intros s. Qed.

#[local] Instance no_request_transitive : Transitive no_request.
Proof.
  unfold no_request. intros s1 s2 s3 [] []. split; congruence.
Qed.

(** ** Steps that keep the invariant *)

Lemma keeps_same_module (s : State) (w : World) (t : list Event) :
  t = trace s \/ (exists e, quiet e /\ t = trace s ++ [e]) ->
  keeps s (mkState (module s) w t).
Proof.
  intros Ht. split; simpl; try done.
  unfold invariant, load_invariant, holder_invariant, accessors_made,
    programs_parsed, holders_inserted. simpl.
  destruct Ht as [->|(e & (Ha & Hp & Hi) & ->)]; [done|].
  rewrite !count_events_snoc, Ha, Hp, !Nat.add_0_r.
  intros [H4 H5]. split; [done|]. intros n.
  rewrite !count_events_snoc, Hi, !Nat.add_0_r. apply H5.
Qed.

Lemma keeps_method_call (s : State) (n : string) (h : MethodHolder)
    (meth : Method) (w : World) (e : Event) :
  methods_ (module s) !! n = Some h -> quiet e ->
  keeps s (after_method_call n h meth w e s).
Proof.
  intros Hn (Ha & Hp & Hi). split; simpl; try done.
  - unfold invariant, load_invariant, holder_invariant, accessors_made,
      programs_parsed, holders_inserted. simpl.
    rewrite !count_events_snoc, Ha, Hp, !Nat.add_0_r.
    intros [H4 H5]. split; [done|]. intros m.
    rewrite !count_events_snoc, Hi, !Nat.add_0_r.
    destruct (H5 m) as [H1 H2]. split; [done|].
    intros Hm. apply H2.
    destruct (decide (n = m)) as [->|Hne].
    + by rewrite lookup_insert_eq in Hm.
    + by rewrite lookup_insert_ne in Hm.
  - intros m Hm. destruct (decide (n = m)) as [->|Hne].
    + rewrite lookup_insert_eq. eauto.
    + by rewrite lookup_insert_ne.
Qed.

Lemma keeps_log (e : Event) : quiet e -> always keeps (log e).
Proof. intros He s. apply keeps_same_module. right. eauto. Qed.

Lemma keeps_call_world {A} (f : World -> A * World) (ev : A -> Event) :
  (forall a, quiet (ev a)) -> always keeps (call_world f ev).
Proof.
  intros He s. unfold call_world. destruct (f (world s)) as [a w]. simpl.
  apply keeps_same_module. right. eauto.
Qed.

Lemma keeps_call_pure {A} (a : A) (ev : A -> Event) :
  (forall a, quiet (ev a)) -> always keeps (call_pure a ev).
Proof.
  intros He. unfold call_pure. apply always_bind; [apply _| |].
  - by apply keeps_log.
  - intros _. apply always_ret, _.
Qed.

Lemma keeps_call_method {A} (n : string)
    (f : Method -> World -> A * Method * World) (ev : A -> Event) :
  (forall a, quiet (ev a)) -> always keeps (call_method n f ev).
Proof.
  intros He s. unfold call_method.
  destruct (methods_ (module s) !! n) as [h|] eqn:Hn; [|reflexivity].
  destruct (f (method h) (world s)) as [[a meth] w]. simpl.
  by apply (keeps_method_call s n h meth w (ev a)).
Qed.

Lemma keeps_outside (f : World -> World) : always keeps (outside f).
Proof. intros s. apply keeps_same_module. by left. Qed.

Lemma keeps_emplace_holder (n : string) (h : MethodHolder) :
  always keeps (emplace_holder n h).
Proof.
  intros s. unfold emplace_holder, bind, get_module, set_module, log, ret.
  destruct (methods_ (module s) !! n) as [h'|] eqn:Hn; simpl; [reflexivity|].
  split; simpl; try done.
  - unfold invariant, load_invariant, holder_invariant, accessors_made,
      programs_parsed, holders_inserted. simpl.
    rewrite !count_events_snoc. simpl. rewrite !Nat.add_0_r.
    intros [H4 H5]. split; [done|]. intros m.
    rewrite count_events_snoc. simpl.
    destruct (H5 m) as [H1 H2]. case_bool_decide as Hnm.
    + subst m. rewrite (H2 Hn), lookup_insert_eq. split; [lia|done].
    + rewrite Nat.add_0_r, lookup_insert_ne; done.
  - intros m Hm. destruct (decide (n = m)) as [->|Hne].
    + rewrite lookup_insert_eq. eauto.
    + by rewrite lookup_insert_ne.
Qed.

Lemma keeps_load (v : Verification) : always keeps (load v).
Proof.
  intros s.
  unfold load, load_program, make_data_loader, call_world, bind, log,
    get_module, set_module, ret, is_loaded. simpl.
  destruct (program_ (module s)) as [p|] eqn:Hp; simpl.
  { apply keeps_same_module. right. exists Call_load. by repeat split. }
  repeat case_match; simplify_eq/=; split; simpl; try done;
    try congruence;
    unfold invariant, load_invariant, holder_invariant, accessors_made,
      programs_parsed, holders_inserted; simpl;
    repeat (rewrite !count_events_snoc; simpl);
    rewrite ?Nat.add_0_r;
    (intros [(Hacc & Hpar & Hnone) Hhold];
     destruct (Hnone Hp) as [Hc1 Hc2];
     split; [|intros n; repeat (rewrite !count_events_snoc; simpl);
                rewrite ?Nat.add_0_r; apply Hhold];
     repeat split; try lia; try congruence;
     try (intros; lia);
     try (rewrite Hc2 by done; lia)).
Qed.

(** ** Every operation keeps the invariant *)

Ltac always_step :=
  lazymatch goal with
  | |- always _ (bind _ _) => apply always_bind; [apply _| |intros ?]
  | |- always _ (ret _) => apply always_ret; apply _
  | |- always _ (halt _) => apply always_halt; apply _
  | |- always _ get_module => apply always_get_module; apply _
  | |- always _ (Result_get _) => apply always_Result_get; apply _
  | |- always _ (int_incr _) => apply always_int_incr; apply _
  | |- always _ deref_program => apply always_deref_program; apply _
  | |- always _ (methods_at _) => apply always_methods_at; apply _
  | |- always _ (match ?x with _ => _ end) => destruct x
  end.

Ltac quiet_solve := intros; by repeat split.

Ltac keeps_step :=
  first
    [ always_step
    | apply keeps_load
    | apply keeps_emplace_holder
    | apply keeps_outside
    | apply keeps_call_world; quiet_solve
    | apply keeps_call_pure; quiet_solve
    | apply keeps_call_method; quiet_solve ].

Lemma keeps_collect_method_names p n index result :
  always keeps (collect_method_names p n index result).
Proof.
  revert index result. induction n as [|n IH]; intros index result; simpl.
  - keeps_step.
  - repeat keeps_step. apply IH.
Qed.

Lemma keeps_method_names : always keeps method_names.
Proof.
  unfold method_names. repeat keeps_step. apply keeps_collect_method_names.
Qed.

Lemma keeps_new_planned_buffer n z : always keeps (new_planned_buffer n z).
Proof.
  unfold new_planned_buffer. repeat case_decide; repeat keeps_step.
Qed.

Lemma keeps_realize_plan name meta n index buffers spans :
  always keeps (realize_plan name meta n index buffers spans).
Proof.
  revert index buffers spans.
  induction n as [|n IH]; intros index buffers spans; simpl.
  - keeps_step.
  - repeat first [apply keeps_new_planned_buffer | keeps_step]. apply IH.
Qed.

Lemma keeps_materialize p name meta : always keeps (materialize p name meta).
Proof.
  unfold materialize.
  repeat first [apply keeps_realize_plan | keeps_step].
Qed.

Lemma keeps_load_method name : always keeps (load_method name).
Proof.
  unfold load_method. repeat first [apply keeps_materialize | keeps_step].
Qed.

Lemma keeps_method_meta name : always keeps (method_meta name).
Proof.
  unfold method_meta. repeat first [apply keeps_load_method | keeps_step].
Qed.

Lemma keeps_bind_inputs name input index :
  always keeps (bind_inputs name input index).
Proof.
  revert index. induction input as [|v rest IH]; intros index; simpl.
  - keeps_step.
  - repeat keeps_step. apply IH.
Qed.

Lemma keeps_run_and_collect name : always keeps (run_and_collect name).
Proof. unfold run_and_collect. repeat keeps_step. Qed.

Lemma keeps_execute name input : always keeps (execute name input).
Proof.
  unfold execute.
  repeat first
    [ apply keeps_load_method | apply keeps_bind_inputs
    | apply keeps_run_and_collect | keeps_step ].
Qed.

Lemma keeps_set_output_data_ptr t i : always keeps (set_output_data_ptr t i).
Proof.
  unfold set_output_data_ptr.
  repeat first [apply keeps_load_method | keeps_step].
Qed.

Lemma keeps_run_call c : always keeps (run_call c).
Proof.
  destruct c; simpl;
    repeat first
      [ apply keeps_method_names | apply keeps_load_method
      | apply keeps_method_meta | apply keeps_execute
      | apply keeps_set_output_data_ptr | keeps_step ].
Qed.

Lemma keeps_run_calls cs s : keeps s (run_calls cs s).
Proof.
  revert s. induction cs as [|c cs IH]; intros s; simpl; [reflexivity|].
  pose proof (keeps_run_call c s) as Hc.
  destruct (run_call c s) as [a s1|h s1]; simpl in Hc.
  - etrans; [exact Hc|apply IH].
  - destruct h; [etrans; [exact Hc|apply IH]|done|done].
Qed.

Lemma constructed_invariant (s : State) : constructed s -> invariant s.
Proof.
  intros [(path & mode & tracer & w & ->)
         |[(d & a & t & tracer & w & ->)|(p & a & t & tracer & w & ->)]];
    (split; [repeat split; cbv [accessors_made programs_parsed]; simpl; lia
            |intros n; split; cbv [holders_inserted]; simpl; [lia|done]]).
Qed.

(** ** [load] *)

Lemma load_when_loaded (v : Verification) (s : State) :
  is_loaded (module s) = true ->
  load v s = Returns Ok (mkState (module s) (world s) (trace s ++ [Call_load])).
Proof.
  intros Hl. unfold load, bind, log, get_module. simpl. by rewrite Hl.
Qed.

Lemma load_returns (v : Verification) (s : State) :
  exists e s', load v s = Returns e s'.
Proof.
  unfold load, load_program, make_data_loader, call_world, bind, log,
    get_module, set_module, ret. simpl.
  repeat case_match; simplify_eq/=; eauto.
Qed.

Lemma load_ok_loaded (v : Verification) (s s' : State) :
  load v s = Returns Ok s' -> is_loaded (module s') = true.
Proof.
  unfold load, load_program, make_data_loader, call_world, bind, log,
    get_module, set_module, ret. simpl.
  repeat case_match; simplify_eq/=; intros; simplify_eq/=; done.
Qed.

Lemma load_ok_program (v : Verification) (s s' : State) :
  load v s = Returns Ok s' -> exists p, program_ (module s') = Some p.
Proof.
  intros H%load_ok_loaded. unfold is_loaded in H.
  destruct (program_ (module s')); eauto. done.
Qed.

Lemma is_loaded_kept (s s' : State) :
  keeps s s' -> is_loaded (module s) = true -> is_loaded (module s') = true.
Proof.
  intros Hk. unfold is_loaded.
  destruct (program_ (module s)) as [p|] eqn:Hp; [|done].
  by rewrite (keeps_program _ _ Hk p Hp).
Qed.

Lemma load_enters_once (v : Verification) (s : State) :
  count_events enters_load (trace (final_state (load v s)))
  = S (count_events enters_load (trace s)).
Proof.
  unfold load, load_program, make_data_loader, call_world, bind, log,
    get_module, set_module, ret. simpl.
  repeat case_match; simplify_eq/=;
    repeat (rewrite !count_events_snoc; simpl); lia.
Qed.

(** C4. [load()] is idempotent.  (1) With a program set it returns [Ok],
    changes neither the module nor the world, and calls no collaborator: no
    accessor is asked for and nothing is parsed.  (2) Whatever calls are
    made on a module after its construction, among them any number of
    [load()], at most one accessor is constructed and at most one program is
    parsed.  (3) After one [load()] returned [Ok], every later [load()],
    whatever was called in between, returns [Ok] without asking for an
    accessor or a parse. *)
Theorem load_idempotent :
  (forall v s,
     is_loaded (module s) = true ->
     load v s
     = Returns Ok (mkState (module s) (world s) (trace s ++ [Call_load]))) /\
  (forall cs s0,
     constructed s0 ->
     (accessors_made (run_calls cs s0) <= 1)%nat /\
     (programs_parsed (run_calls cs s0) <= 1)%nat) /\
  (forall v s s1 cs v',
     load v s = Returns Ok s1 ->
     exists s2,
       load v' (run_calls cs s1) = Returns Ok s2 /\
       module s2 = module (run_calls cs s1) /\
       world s2 = world (run_calls cs s1) /\
       no_request (run_calls cs s1) s2).
Proof.
  split; [exact load_when_loaded|split].
  - intros cs s0 Hc.
    destruct (keeps_invariant _ _ (keeps_run_calls cs s0)
                (constructed_invariant s0 Hc)) as [(Ha & Hp & _) _].
    done.
  - intros v s s1 cs v' Hl%load_ok_loaded.
    pose proof (is_loaded_kept _ _ (keeps_run_calls cs s1) Hl) as Hl2.
    eexists. split; [by apply load_when_loaded|]. simpl.
    repeat split; unfold no_request; simpl;
      rewrite ?count_events_snoc; simpl; lia.
Qed.

(** ** Inversion of [bind] *)

Lemma bind_returns {A B} (c : M A) (k : A -> M B) (s : State) (b : B)
    (s' : State) :
  bind c k s = Returns b s' ->
  exists a s1, c s = Returns a s1 /\ k a s1 = Returns b s'.
Proof. unfold bind. destruct (c s) as [a s1|h s1]; [eauto|done]. Qed.

Lemma bind_eq {A B} (c : M A) (k : A -> M B) (s : State) (a : A)
    (s1 : State) :
  c s = Returns a s1 -> bind c k s = k a s1.
Proof. unfold bind. by intros ->. Qed.

(** ** The cache outside [emplace_holder] and [call_method] *)

#[local] Instance same_methods_reflexive : Reflexive same_methods.
Proof. by intros s. Qed.

#[local] Instance same_methods_transitive : Transitive same_methods.
Proof. unfold same_methods. intros s1 s2 s3 H12 H23. congruence. Qed.

Lemma same_methods_call_world {A} (f : World -> A * World) (ev : A -> Event) :
  always same_methods (call_world f ev).
Proof. intros s. unfold call_world. by destruct (f (world s)). Qed.

Lemma same_methods_call_pure {A} (a : A) (ev : A -> Event) :
  always same_methods (call_pure a ev).
Proof. by intros s. Qed.

Lemma same_methods_load (v : Verification) : always same_methods (load v).
Proof.
  intros s.
  unfold load, load_program, make_data_loader, call_world, bind, log,
    get_module, set_module, ret, same_methods. simpl.
  repeat case_match; simplify_eq/=; done.
Qed.

Ltac same_methods_step :=
  first
    [ always_step
    | apply same_methods_load
    | apply same_methods_call_world
    | apply same_methods_call_pure ].

Lemma same_methods_new_planned_buffer n z :
  always same_methods (new_planned_buffer n z).
Proof.
  unfold new_planned_buffer. repeat case_decide; repeat same_methods_step.
Qed.

Lemma same_methods_realize_plan name meta n index buffers spans :
  always same_methods (realize_plan name meta n index buffers spans).
Proof.
  revert index buffers spans.
  induction n as [|n IH]; intros index buffers spans; simpl.
  - same_methods_step.
  - repeat first [apply same_methods_new_planned_buffer | same_methods_step].
    apply IH.
Qed.

(** ** [load_method] *)

Lemma load_method_when_loaded (name : string) (s : State) :
  is_method_loaded name (module s) = true ->
  load_method name s = Returns Ok s.
Proof.
  intros Hl. unfold load_method, bind, get_module. by rewrite Hl.
Qed.

Lemma emplace_holder_returns (n : string) (h : MethodHolder) (s : State) :
  exists s', emplace_holder n h s = Returns tt s' /\
    match methods_ (module s) !! n with
    | Some _ => s' = s
    | None =>
        s' = mkState (set_methods (<[n := h]> (methods_ (module s)))
                        (module s))
               (world s) (trace s ++ [Insert_holder n])
    end.
Proof.
  unfold emplace_holder, bind, get_module, set_module, log, ret.
  destruct (methods_ (module s) !! n); simpl; eauto.
Qed.

(** What [materialize] does: it returns [Ok] after inserting a holder built
    from the realized plan and the materialized method, and ends in any
    other way with the cache as it was. *)
Lemma materialize_cases (p : Program) (name : string) (meta : MethodMeta)
    (s : State) :
  methods_ (module s) !! name = None ->
  match materialize p name meta s with
  | Returns Ok s' =>
      exists bs sb meth w,
        realize_plan name meta
          (Z.to_nat (MethodMeta_num_memory_planned_buffers meta)) 0 [] [] s
        = Returns bs sb /\
        Program_load_method p name (memory_allocator_ (module sb))
          (mkHierarchicalAllocator bs.2) (temp_allocator_ (module sb))
          (event_tracer_ (module sb)) (world sb) = (Value meth, w) /\
        let planned := mkHierarchicalAllocator bs.2 in
        let manager :=
          mkMemoryManager (memory_allocator_ (module sb)) planned
            (temp_allocator_ (module sb)) in
        let h := mkMethodHolder bs.1 bs.2 planned manager meth in
        s' = mkState
               (set_methods (<[name := h]> (methods_ (module sb)))
                  (module sb))
               w
               (trace sb
                ++ [Call_Program_load_method name manager
                      (event_tracer_ (module sb)) (Value meth)]
                ++ [Insert_holder name]) /\
        methods_ (module sb) = methods_ (module s)
  | o => methods_ (module (final_state o)) = methods_ (module s)
  end.
Proof.
  intros Hn. unfold materialize.
  pose proof (same_methods_realize_plan name meta
    (Z.to_nat (MethodMeta_num_memory_planned_buffers meta)) 0 [] [] s) as Hs.
  unfold bind at 1.
  destruct (realize_plan _ _ _ _ _ _ s) as [bs sb|h sb]; simpl in Hs; [|done].
  unfold bind, get_module, call_world, ret. simpl.
  destruct (Program_load_method _ _ _ _ _ _ _) as [[meth|c] w] eqn:Hm;
    simpl; [|done].
  match goal with
  | |- context [emplace_holder ?n ?h ?st] =>
      destruct (emplace_holder_returns n h st) as (s' & -> & Hs')
  end.
  simpl in Hs'. rewrite Hs, Hn in Hs'. subst s'.
  exists bs, sb, meth, w. rewrite <- app_assoc, Hs. done.
Qed.

Lemma load_method_ok_loaded (name : string) (s s' : State) :
  load_method name s = Returns Ok s' ->
  is_method_loaded name (module s') = true.
Proof.
  unfold load_method. unfold bind at 1. unfold get_module.
  destruct (is_method_loaded name (module s)) eqn:Hl.
  { intros [= <-]. done. }
  intros (e & s1 & Hload & H)%bind_returns.
  destruct e as [|c]; [|done].
  apply bind_returns in H as (p & s2 & Hp & H).
  apply bind_returns in H as (r & s3 & Hr & H).
  destruct r as [meta|c]; [|done].
  assert (methods_ (module s3) !! name = None) as Hn.
  { pose proof (same_methods_load default_verification s) as H1.
    rewrite Hload in H1.
    pose proof (always_deref_program same_methods s1) as H2.
    rewrite Hp in H2.
    pose proof (same_methods_call_pure
      (Program_method_meta p name) (Call_method_meta name) s2) as H3.
    rewrite Hr in H3. unfold same_methods in *. simpl in *.
    rewrite H3, H2, H1. unfold is_method_loaded in Hl.
    by destruct (methods_ (module s) !! name). }
  pose proof (materialize_cases p name meta s3 Hn) as Hc. rewrite H in Hc.
  destruct Hc as (bs & sb & meth & w & _ & _ & -> & _).
  unfold is_method_loaded. simpl. by rewrite lookup_insert_eq.
Qed.

Lemma is_method_loaded_kept (name : string) (s s' : State) :
  keeps s s' ->
  is_method_loaded name (module s) = true ->
  is_method_loaded name (module s') = true.
Proof.
  intros Hk. unfold is_method_loaded.
  destruct (methods_ (module s) !! name) as [h|] eqn:Hh; [|done].
  destruct (keeps_methods _ _ Hk name) as [h' ->]; eauto.
Qed.

(** C5. [loadMethod(name)] is idempotent per name.  (1) With a holder cached
    for the name it returns [Ok] and leaves the whole state as it was, trace
    included: no metadata lookup, no buffer allocation, no materialization.
    (2) Whatever calls are made on a module after its construction, at most
    one holder is ever put in the cache under a given name.  (3) After one
    [loadMethod(name)] returned [Ok], every later one, whatever was called in
    between, is such a no-op. *)
Theorem load_method_idempotent :
  (forall name s,
     is_method_loaded name (module s) = true ->
     load_method name s = Returns Ok s) /\
  (forall name cs s0,
     constructed s0 ->
     (holders_inserted name (run_calls cs s0) <= 1)%nat) /\
  (forall name s s1 cs,
     load_method name s = Returns Ok s1 ->
     load_method name (run_calls cs s1) = Returns Ok (run_calls cs s1)).
Proof.
  split; [exact load_method_when_loaded|split].
  - intros name cs s0 Hc.
    destruct (keeps_invariant _ _ (keeps_run_calls cs s0)
                (constructed_invariant s0 Hc)) as [_ Hh].
    apply Hh.
  - intros name s s1 cs Hl%load_method_ok_loaded.
    apply load_method_when_loaded.
    by apply (is_method_loaded_kept name _ _ (keeps_run_calls cs s1)).
Qed.

(** ** [method_names] *)

Lemma no_load_entered_collect_method_names p n index result :
  always no_load_entered (collect_method_names p n index result).
Proof.
  revert index result. induction n as [|n IH]; intros index result; simpl.
  - always_step.
  - repeat always_step; [|apply IH].
    intros s. unfold call_pure, bind, log, ret, no_load_entered. simpl.
    rewrite count_events_snoc. simpl. lia.
Qed.

Lemma collect_method_names_spec p n index result s names s' :
  collect_method_names p n index result s = Returns names s' ->
  module s' = module s /\
  forall x, x ∈ names <->
    x ∈ result \/
    exists i, index <= i < index + Z.of_nat n /\
              Program_get_method_name p i = Value x.
Proof.
  revert index result s. induction n as [|n IH]; intros index result s; simpl.
  - intros [= <- <-]. split; [done|]. intros x. split; [by left|].
    intros [?|(i & ? & _)]; [done|lia].
  - unfold call_pure, bind at 1 2 3, log, ret. simpl.
    destruct (Program_get_method_name p index) as [name|c] eqn:Hname;
      simpl; [|done].
    unfold bind at 1, int_incr. case_decide as Hmax; simpl; [done|].
    intros [Hm Hx]%IH. simpl in Hm. split; [done|].
    intros x. rewrite Hx, elem_of_union, elem_of_singleton. split.
    + intros [[?| ->]|(i & ? & ?)]; [by left| |].
      * right. exists index. split; [lia|done].
      * right. exists i. split; [lia|done].
    + intros [?|(i & Hi & Hv)]; [by left; left|].
      destruct (decide (i = index)) as [->|Hne].
      * left. right. congruence.
      * right. exists i. split; [lia|done].
Qed.

Lemma collect_method_names_returns p n index result s :
  index + Z.of_nat n <= INT_MAX ->
  (forall i, index <= i < index + Z.of_nat n ->
             Result_ok (Program_get_method_name p i) = true) ->
  exists names s', collect_method_names p n index result s = Returns names s'.
Proof.
  revert index result s. induction n as [|n IH]; intros index result s; simpl.
  - eauto.
  - intros Hmax Hok.
    unfold call_pure, bind at 1 2 3, log, ret. simpl.
    specialize (Hok index) as Hi.
    destruct (Program_get_method_name p index) as [name|c]; simpl.
    + unfold bind at 1, int_incr. case_decide as Hm; simpl; [lia|].
      apply IH; [lia|]. intros i ?. apply Hok. lia.
    + discriminate Hi. lia.
Qed.

(** C8. (1) After the constructor from a path and after the constructor from
    a data loader, [isLoaded()] is false.  (2) [methodNames()] enters
    [load()] exactly once, however it ends.  (3) It returns a failure exactly
    when that [load()] does, and the same one.  (4) When it returns a set,
    the set holds exactly the names the program gives at the indices from 0
    up to its method count.  (5) It does return a set when [load()] succeeds
    and the program has a name at each of these indices (their count being
    within the range of the [int] loop counter). *)
Theorem method_names_spec :
  (forall path mode tracer w,
     is_loaded (module (Module_from_file path mode tracer w)) = false) /\
  (forall d a t tracer w,
     is_loaded (module (Module_from_data_loader d a t tracer w)) = false) /\
  (forall s,
     count_events enters_load (trace (final_state (method_names s)))
     = S (count_events enters_load (trace s))) /\
  (forall s c s',
     method_names s = Returns (Failure c) s' <->
     load default_verification s = Returns (Err c) s') /\
  (forall s names s',
     method_names s = Returns (Value names) s' ->
     exists p,
       program_ (module s') = Some p /\
       forall x, x ∈ names <->
         exists i, 0 <= i < Program_num_methods (program_object p) /\
                   Program_get_method_name (program_object p) i = Value x) /\
  (forall s s1 p,
     load default_verification s = Returns Ok s1 ->
     program_ (module s1) = Some p ->
     Program_num_methods (program_object p) <= INT_MAX ->
     (forall i, 0 <= i < Program_num_methods (program_object p) ->
        Result_ok (Program_get_method_name (program_object p) i) = true) ->
     exists names s', method_names s = Returns (Value names) s').
Proof.
  split; [done|]. split; [done|]. split; [|split; [|split]].
  - intros s. unfold method_names. unfold bind at 1.
    pose proof (load_enters_once default_verification s) as Hl.
    destruct (load default_verification s) as [e s1|h s1]; simpl in Hl;
      [|done].
    destruct e as [|c]; [|done].
    rewrite <- Hl.
    match goal with
    | |- context [final_state (?c s1)] =>
        assert (always no_load_entered c) as Ha
    end.
    { repeat always_step. apply no_load_entered_collect_method_names. }
    apply Ha.
  - intros s c s'. unfold method_names. unfold bind at 1.
    destruct (load default_verification s) as [e s1|h s1]; [|done].
    destruct e as [|c1].
    + split; [|done].
      intros (p & s2 & _ & H)%bind_returns.
      apply bind_returns in H as (r & s3 & _ & H). done.
    + unfold ret. split; intros [= -> ->]; done.
  - intros s names s'. unfold method_names. unfold bind at 1.
    destruct (load default_verification s) as [e s1|h s1] eqn:Hload; [|done].
    destruct e as [|c1]; [|done].
    apply load_ok_program in Hload as [p Hp].
    unfold deref_program, bind at 1 2, get_module. rewrite Hp. simpl.
    intros (r & s3 & Hr & [= <- <-])%bind_returns.
    apply collect_method_names_spec in Hr as [Hm Hx].
    exists p. rewrite Hm. split; [done|].
    intros x. rewrite Hx. split.
    + intros [?|(i & Hi & ?)]; [set_solver|]. exists i. split; [lia|done].
    + intros (i & Hi & ?). right. exists i. split; [lia|done].
  - intros s s1 p Hload Hp Hmax Hok. unfold method_names.
    rewrite (bind_eq _ _ _ _ _ Hload).
    unfold deref_program, bind at 1 2, get_module. rewrite Hp. simpl.
    destruct (collect_method_names_returns (program_object p)
                (Z.to_nat (Program_num_methods (program_object p))) 0 ∅ s1)
      as (names & s' & Hc).
    + unfold INT_MAX in *. lia.
    + intros i Hi. apply Hok. lia.
    + exists names, s'. by rewrite (bind_eq _ _ _ _ _ Hc).
Qed.

(** ** The memory plan *)

Lemma to_size_t_range (z : Z) : 0 <= to_size_t z < SIZE_MODULUS.
Proof. unfold to_size_t, SIZE_MODULUS. apply Z.mod_pos_bound. lia. Qed.

Lemma to_size_t_int64 (z : Z) :
  - 2 ^ 63 <= z < 2 ^ 63 -> to_size_t z <= VECTOR_MAX_SIZE -> to_size_t z = z.
Proof.
  unfold to_size_t, SIZE_MODULUS, VECTOR_MAX_SIZE. intros Hz Hmax.
  destruct (decide (0 <= z)) as [Hpos|Hneg].
  - apply Z.mod_small. lia.
  - exfalso. replace z with (z + 2 ^ 64 - 1 * 2 ^ 64) in Hmax by lia.
    rewrite Zminus_mod, Z_mod_mult, Z.sub_0_r, Z.mod_mod in Hmax by lia.
    rewrite Z.mod_small in Hmax by lia. lia.
Qed.

Lemma new_planned_buffer_returns name size s buf s' :
  new_planned_buffer name size s = Returns buf s' ->
  buf = zero_buffer (to_size_t size) /\
  0 <= to_size_t size <= VECTOR_MAX_SIZE.
Proof.
  pose proof (to_size_t_range size) as Hr.
  unfold new_planned_buffer, zero_buffer.
  case_decide as Hmax; [done|]. case_decide as Hz.
  - intros [= <- <-]. rewrite Hz. split; [done|]. unfold VECTOR_MAX_SIZE. lia.
  - unfold bind, call_world.
    destruct (operator_new (to_size_t size) (world s)) as [[] w]; simpl;
      [|done].
    intros [= <- <-]. split; [done|lia].
Qed.

Lemma realize_plan_spec name meta n index buffers spans s bs s' :
  realize_plan name meta n index buffers spans s = Returns bs s' ->
  exists sizes : list Z,
    length sizes = n /\
    bs.1 = buffers ++ (zero_buffer <$> sizes) /\
    bs.2 = spans ++ imap (fun i z => mkSpan (length buffers + i) z) sizes /\
    forall (i : nat) z, sizes !! i = Some z ->
      0 <= z <= VECTOR_MAX_SIZE /\
      exists size,
        MethodMeta_memory_planned_buffer_size meta (index + Z.of_nat i)
        = Value size /\
        z = to_size_t size.
Proof.
  revert index buffers spans s.
  induction n as [|n IH]; intros index buffers spans s; simpl.
  - intros [= <- <-]. exists []. simpl. rewrite !app_nil_r. done.
  - unfold call_pure, bind at 1 2 3, log, ret. simpl.
    destruct (MethodMeta_memory_planned_buffer_size meta index)
      as [size|c] eqn:Hsize; simpl; [|done].
    intros (buf & s1 & Hbuf & H)%bind_returns.
    apply new_planned_buffer_returns in Hbuf as [-> Hrange].
    apply bind_returns in H as (index' & s2 & Hincr & H).
    unfold int_incr in Hincr. case_decide; [done|].
    injection Hincr as <- <-.
    apply IH in H as (sizes & Hlen & Hb & Hs & Hsizes).
    exists (to_size_t size :: sizes). split; [simpl; lia|].
    split; [by rewrite Hb, <- app_assoc|]. split.
    + rewrite Hs, <- app_assoc. simpl. f_equal. f_equal.
      * f_equal. lia.
      * apply imap_ext. intros i z _. simpl. f_equal.
        rewrite length_app. simpl. lia.
    + intros [|i] z Hz; simpl in Hz.
      * injection Hz as <-. split; [done|].
        exists size. split; [|done]. by rewrite Z.add_0_r.
      * destruct (Hsizes i z Hz) as [? (size' & Hv & ->)].
        split; [done|]. exists size'. split; [|done].
        rewrite <- Hv. f_equal. lia.
Qed.

(** What [load_method] does for a name that is not cached: it returns [Ok]
    after [load], the metadata lookup and [materialize] all succeeded, and
    ends in any other way with the cache as it was. *)
Lemma load_method_cases (name : string) (s : State) :
  is_method_loaded name (module s) = false ->
  match load_method name s with
  | Returns Ok s' =>
      exists s1 p meta,
        load default_verification s = Returns Ok s1 /\
        program_ (module s1) = Some p /\
        Program_method_meta (program_object p) name = Value meta /\
        methods_ (module s1) = methods_ (module s) /\
        materialize (program_object p) name meta
          (logged (Call_method_meta name (Value meta)) s1)
        = Returns Ok s'
  | o => methods_ (module (final_state o)) = methods_ (module s)
  end.
Proof.
  intros Hl. unfold load_method, bind at 1, get_module. rewrite Hl.
  unfold bind at 1.
  pose proof (same_methods_load default_verification s) as Hs1.
  destruct (load default_verification s) as [e s1|h s1] eqn:Hload;
    simpl in Hs1; [|done].
  destruct e as [|c]; [|done].
  destruct (load_ok_program _ _ _ Hload) as [p Hp].
  unfold deref_program, bind at 1 2, get_module. rewrite Hp. simpl.
  unfold call_pure, bind at 1 2, log, ret. simpl.
  destruct (Program_method_meta (program_object p) name) as [meta|c] eqn:Hmeta;
    simpl; [|done].
  assert (methods_ (module s1) !! name = None) as Hn.
  { rewrite Hs1. unfold is_method_loaded in Hl.
    by destruct (methods_ (module s) !! name). }
  pose proof (materialize_cases (program_object p) name meta
    (logged (Call_method_meta name (Value meta)) s1) Hn) as Hc.
  unfold logged in *.
  destruct (materialize _ _ _ _) as [[|c] s'|h s'] eqn:Hmat; simpl in *.
  - exists s1, p, meta. done.
  - congruence.
  - congruence.
Qed.

Lemma load_method_fails_unchanged (name : string) (s : State) :
  match load_method name s with
  | Returns Ok _ => True
  | o =>
      methods_ (module (final_state o)) = methods_ (module s) /\
      is_method_loaded name (module (final_state o)) = false
  end.
Proof.
  destruct (is_method_loaded name (module s)) eqn:Hl.
  { by rewrite load_method_when_loaded. }
  pose proof (load_method_cases name s Hl) as Hc.
  destruct (load_method name s) as [[|c] s'|h s']; simpl in *; [done| |];
    (split; [done|]); unfold is_method_loaded in *; by rewrite Hc.
Qed.

(** C3. (1) When [loadMethod(name)] returns an error, the cache is the one
    of before and [isMethodLoaded(name)] is false; (2) the same holds when it
    is left through an exception or a failed check (a planned buffer that
    cannot be allocated, a buffer size the metadata cannot give).  (3) A
    failing [load()], metadata lookup or materialization makes
    [loadMethod(name)] return that error.  (4) A later [loadMethod(name)]
    whose stages all succeed returns [Ok] and leaves under [name] a holder
    with the realized buffers and the materialized method, which
    [methods_.at(name)] finds. *)
Theorem load_method_failure_leaves_no_entry :
  (forall name s c s',
     load_method name s = Returns (Err c) s' ->
     methods_ (module s') = methods_ (module s) /\
     is_method_loaded name (module s') = false) /\
  (forall name s h s',
     load_method name s = Halts h s' ->
     methods_ (module s') = methods_ (module s) /\
     is_method_loaded name (module s') = false) /\
  (forall name s,
     is_method_loaded name (module s) = false ->
     (forall c s1,
        load default_verification s = Returns (Err c) s1 ->
        load_method name s = Returns (Err c) s1) /\
     (forall s1 p c,
        load default_verification s = Returns Ok s1 ->
        program_ (module s1) = Some p ->
        Program_method_meta (program_object p) name = Failure c ->
        load_method name s
        = Returns (Err c) (logged (Call_method_meta name (Failure c)) s1)) /\
     (forall s1 p meta c s',
        load default_verification s = Returns Ok s1 ->
        program_ (module s1) = Some p ->
        Program_method_meta (program_object p) name = Value meta ->
        materialize (program_object p) name meta
          (logged (Call_method_meta name (Value meta)) s1)
        = Returns (Err c) s' ->
        load_method name s = Returns (Err c) s')) /\
  (forall name s s1 p meta bs sb meth w,
     is_method_loaded name (module s) = false ->
     load default_verification s = Returns Ok s1 ->
     program_ (module s1) = Some p ->
     Program_method_meta (program_object p) name = Value meta ->
     realize_plan name meta
       (Z.to_nat (MethodMeta_num_memory_planned_buffers meta)) 0 [] []
       (logged (Call_method_meta name (Value meta)) s1)
     = Returns bs sb ->
     Program_load_method (program_object p) name
       (memory_allocator_ (module sb)) (mkHierarchicalAllocator bs.2)
       (temp_allocator_ (module sb)) (event_tracer_ (module sb)) (world sb)
     = (Value meth, w) ->
     exists s2 h,
       load_method name s = Returns Ok s2 /\
       is_method_loaded name (module s2) = true /\
       methods_ (module s2) !! name = Some h /\
       planned_buffers h = bs.1 /\
       method h = meth /\
       methods_at name s2 = Returns h s2).
Proof.
  split; [|split; [|split]].
  - intros name s c s' H.
    pose proof (load_method_fails_unchanged name s) as Hc.
    by rewrite H in Hc.
  - intros name s h s' H.
    pose proof (load_method_fails_unchanged name s) as Hc.
    by rewrite H in Hc.
  - intros name s Hl. split; [|split].
    + intros c s1 Hload.
      unfold load_method, bind at 1, get_module. rewrite Hl.
      by rewrite (bind_eq _ _ _ _ _ Hload).
    + intros s1 p c Hload Hp Hmeta.
      unfold load_method, bind at 1, get_module. rewrite Hl.
      rewrite (bind_eq _ _ _ _ _ Hload).
      unfold deref_program, bind at 1 2, get_module. rewrite Hp. simpl.
      unfold call_pure, bind, log, ret. simpl. by rewrite Hmeta.
    + intros s1 p meta c s' Hload Hp Hmeta Hmat.
      unfold load_method, bind at 1, get_module. rewrite Hl.
      rewrite (bind_eq _ _ _ _ _ Hload).
      unfold deref_program, bind at 1 2, get_module. rewrite Hp. simpl.
      unfold call_pure, bind at 1 2, log, ret. simpl. by rewrite Hmeta.
  - intros name s s1 p meta bs sb meth w Hl Hload Hp Hmeta Hplan Hmat.
    assert (methods_ (module sb) !! name = None) as Hn.
    { pose proof (same_methods_load default_verification s) as H1.
      rewrite Hload in H1.
      pose proof (same_methods_realize_plan name meta
        (Z.to_nat (MethodMeta_num_memory_planned_buffers meta)) 0 [] []
        (logged (Call_method_meta name (Value meta)) s1)) as H2.
      rewrite Hplan in H2. unfold same_methods in *. simpl in *.
      rewrite H2, H1. unfold is_method_loaded in Hl.
      by destruct (methods_ (module s) !! name). }
    eexists _, _.
    unfold load_method, bind at 1, get_module. rewrite Hl.
    rewrite (bind_eq _ _ _ _ _ Hload).
    unfold deref_program, bind at 1 2, get_module. rewrite Hp. simpl.
    unfold call_pure, bind at 1 2, log, ret. simpl. rewrite Hmeta.
    unfold materialize. unfold logged in Hplan.
    rewrite (bind_eq _ _ _ _ _ Hplan).
    unfold bind at 1, get_module. unfold bind at 1, call_world.
    rewrite Hmat. simpl.
    unfold emplace_holder, bind, get_module, set_module, log, ret. simpl.
    rewrite Hn. simpl.
    split; [reflexivity|]. unfold is_method_loaded, methods_at, bind,
      get_module, ret. simpl.
    rewrite lookup_insert_eq. done.
Qed.

Lemma spans_of_zero_buffers (sizes : list Z) :
  (forall (i : nat) z, sizes !! i = Some z -> 0 <= z) ->
  spans_of_buffers (zero_buffer <$> sizes)
  = imap (fun i z => mkSpan i z) sizes.
Proof.
  intros Hpos. unfold spans_of_buffers. rewrite imap_fmap.
  apply imap_ext. intros i z Hz. simpl. f_equal.
  unfold zero_buffer. rewrite length_replicate.
  specialize (Hpos i z Hz). lia.
Qed.

(** C6. When [loadMethod(name)] succeeds for a name that was not cached and
    the metadata of the method declares [N] planned buffers, the holder
    cached under the name has exactly [N] planned buffers, the [i]-th being
    the zero-initialized vector of the [i]-th declared size (the size the
    metadata gives, as a [size_t]; the same number for every size an
    [int64_t] can hold).  The spans and the hierarchical allocator are one
    span per buffer, in plan order, each pointing at the buffer of its
    position with that buffer's size; that allocator is the planned memory of
    the memory manager that was handed to [Program::load_method], the last
    collaborator called before the holder is inserted.  Nothing here depends
    on anything but the metadata. *)
Theorem planned_buffers_follow_plan (name : string) (s s' : State) :
  is_method_loaded name (module s) = false ->
  load_method name s = Returns Ok s' ->
  exists p meta h tr,
    program_ (module s') = Some p /\
    Program_method_meta (program_object p) name = Value meta /\
    methods_ (module s') !! name = Some h /\
    length (planned_buffers h)
    = Z.to_nat (MethodMeta_num_memory_planned_buffers meta) /\
    (forall i,
       0 <= i < MethodMeta_num_memory_planned_buffers meta ->
       exists s_i,
         MethodMeta_memory_planned_buffer_size meta i = Value s_i /\
         planned_buffers h !! Z.to_nat i
         = Some (zero_buffer (to_size_t s_i)) /\
         Z.of_nat (length (zero_buffer (to_size_t s_i))) = to_size_t s_i /\
         (- 2 ^ 63 <= s_i < 2 ^ 63 -> to_size_t s_i = s_i) /\
         hierarchical_spans (planned_memory h) !! Z.to_nat i
         = Some (mkSpan (Z.to_nat i) (to_size_t s_i))) /\
    planned_spans h = spans_of_buffers (planned_buffers h) /\
    hierarchical_spans (planned_memory h)
    = spans_of_buffers (planned_buffers h) /\
    planned_memory_of (memory_manager h) = planned_memory h /\
    trace s'
    = tr ++ [Call_Program_load_method name (memory_manager h)
               (event_tracer_ (module s')) (Value (method h));
             Insert_holder name].
Proof.
  intros Hl Hok. pose proof (load_method_cases name s Hl) as Hc.
  rewrite Hok in Hc. destruct Hc as (s1 & p & meta & Hload & Hp & Hmeta & Hs1 & Hmat).
  assert (methods_ (module (logged (Call_method_meta name (Value meta)) s1))
          !! name = None) as Hn.
  { simpl. rewrite Hs1. unfold is_method_loaded in Hl.
    by destruct (methods_ (module s) !! name). }
  pose proof (materialize_cases (program_object p) name meta _ Hn) as Hc.
  rewrite Hmat in Hc.
  destruct Hc as (bs & sb & meth & w & Hplan & Hlm & -> & _).
  pose proof (keeps_realize_plan name meta
    (Z.to_nat (MethodMeta_num_memory_planned_buffers meta)) 0 [] []
    (logged (Call_method_meta name (Value meta)) s1)) as Hk.
  rewrite Hplan in Hk. simpl in Hk.
  apply realize_plan_spec in Hplan as (sizes & Hlen & Hb & Hsp & Hsizes).
  simpl in Hb, Hsp.
  assert (Hpos : forall (i : nat) z, sizes !! i = Some z -> 0 <= z).
  { intros i z Hz. destruct (Hsizes i z Hz) as [? _]. lia. }
  eexists p, meta, _, _. simpl. rewrite lookup_insert_eq.
  split; [by apply (keeps_program _ _ Hk)|]. split; [done|].
  split; [reflexivity|]. simpl. rewrite Hb, Hsp.
  split; [by rewrite length_fmap|]. split; [|split; [|split; [|split]]].
  - intros i Hi.
    destruct (sizes !! Z.to_nat i) as [z|] eqn:Hz.
    2:{ apply lookup_ge_None in Hz. lia. }
    destruct (Hsizes _ _ Hz) as [Hrange (s_i & Hv & ->)].
    rewrite Z.add_0_l, Z2Nat.id in Hv by lia.
    exists s_i. split; [done|].
    rewrite list_lookup_fmap, list_lookup_imap, Hz. simpl.
    split; [done|]. split.
    + unfold zero_buffer. rewrite length_replicate. lia.
    + split; [|done]. intros Hint. apply to_size_t_int64; [done|lia].
  - by rewrite spans_of_zero_buffers.
  - by rewrite spans_of_zero_buffers.
  - done.
  - rewrite (keeps_event_tracer _ _ Hk). simpl. reflexivity.
Qed.

(** ** Calls on the cached method *)

Lemma call_method_eq {A} (name : string)
    (f : Method -> World -> A * Method * World) (ev : A -> Event)
    (s : State) (h : MethodHolder) (a : A) (meth : Method) (w : World) :
  methods_ (module s) !! name = Some h ->
  f (method h) (world s) = (a, meth, w) ->
  call_method name f ev s
  = Returns a (after_method_call name h meth w (ev a) s).
Proof. intros Hh Hf. unfold call_method. by rewrite Hh, Hf. Qed.

Lemma call_method_inv {A} (name : string)
    (f : Method -> World -> A * Method * World) (ev : A -> Event)
    (s : State) (a : A) (s' : State) :
  call_method name f ev s = Returns a s' ->
  exists h meth w,
    methods_ (module s) !! name = Some h /\
    f (method h) (world s) = (a, meth, w) /\
    s' = after_method_call name h meth w (ev a) s.
Proof.
  unfold call_method.
  destruct (methods_ (module s) !! name) as [h|]; [|done].
  destruct (f (method h) (world s)) as [[a' meth] w] eqn:Hf.
  intros [= -> <-]. by exists h, meth, w.
Qed.

Lemma after_method_call_lookup name h meth w e s :
  methods_ (module (after_method_call name h meth w e s)) !! name
  = Some (set_method meth h).
Proof. simpl. apply lookup_insert_eq. Qed.

(** ** Binding the inputs *)

Lemma bind_inputs_ok name input index s s' :
  bind_inputs name input index s = Returns Ok s' ->
  trace s' = trace s ++ bind_events name input index.
Proof.
  revert index s. induction input as [|v rest IH]; intros index s; simpl.
  - intros [= <-]. by rewrite app_nil_r.
  - intros (e & s1 & Hcall & H)%bind_returns.
    destruct e as [|c]; [|done].
    apply call_method_inv in Hcall as (h & meth & w & _ & _ & ->).
    apply bind_returns in H as (index' & s2 & Hincr & H).
    unfold int_incr in Hincr. case_decide; [done|].
    injection Hincr as <- <-.
    apply IH in H. rewrite H. simpl. by rewrite <- app_assoc.
Qed.

Lemma bind_inputs_app name pre rest index s :
  bind_inputs name (pre ++ rest) index s
  = bind (bind_inputs name pre index)
      (fun e =>
         match e with
         | Ok => bind_inputs name rest (index + Z.of_nat (length pre))
         | Err c => ret (Err c)
         end) s.
Proof.
  revert index s. induction pre as [|v pre IH]; intros index s; simpl.
  - unfold bind, ret. by rewrite Z.add_0_r.
  - unfold bind in *.
    destruct (call_method name _ _ s) as [[|c] s1|h s1]; [|done|done].
    unfold int_incr. case_decide; [done|]. unfold ret at 1 2.
    rewrite IH.
    destruct (bind_inputs name pre (index + 1) s1) as [[|c] s3|h s3];
      [|done|done].
    f_equal. lia.
Qed.

(** A failing bind: the inputs before the failing position were bound, the
    call at that position failed, and the state is the one that call left. *)
Lemma bind_inputs_err name input index s c s' :
  bind_inputs name input index s = Returns (Err c) s' ->
  exists pre v post sb h meth w,
    input = pre ++ v :: post /\
    bind_inputs name pre index s = Returns Ok sb /\
    methods_ (module sb) !! name = Some h /\
    Method_set_input (method h) v (index + Z.of_nat (length pre)) (world sb)
    = (Err c, meth, w) /\
    s' = after_method_call name h meth w
           (Call_set_input name v (index + Z.of_nat (length pre)) (Err c)) sb.
Proof.
  revert index s. induction input as [|v rest IH]; intros index s; simpl.
  - done.
  - intros (e & s1 & Hcall & H)%bind_returns.
    destruct e as [|c1].
    + apply bind_returns in H as (index' & s2 & Hincr & H).
      unfold int_incr in Hincr. case_decide; [done|].
      injection Hincr as <- <-.
      apply IH in H
        as (pre & v' & post & sb & h & meth & w & -> & Hpre & Hh & Hset & ->).
      exists (v :: pre), v', post, sb, h, meth, w.
      replace (index + Z.of_nat (length (v :: pre)))
        with (index + 1 + Z.of_nat (length pre)) by (simpl; lia).
      repeat split; try done. simpl.
      rewrite (bind_eq _ _ _ _ _ Hcall).
      unfold bind at 1, int_incr. case_decide; [done|]. done.
    + injection H as <- <-.
      apply call_method_inv in Hcall as (h & meth & w & Hh & Hset & ->).
      exists [], v, rest, s, h, meth, w. simpl. rewrite Z.add_0_r. done.
Qed.

(** ** [execute] *)

Lemma methods_at_eq name s h :
  methods_ (module s) !! name = Some h -> methods_at name s = Returns h s.
Proof. intros Hh. unfold methods_at, bind, get_module, ret. by rewrite Hh. Qed.

Lemma load_method_ok_holder name s s1 :
  load_method name s = Returns Ok s1 ->
  exists h, methods_ (module s1) !! name = Some h.
Proof.
  intros Hl%load_method_ok_loaded. unfold is_method_loaded in Hl.
  destruct (methods_ (module s1) !! name); [eauto|done].
Qed.

(** [execute] once [load_method] returned [Ok]. *)
Lemma execute_after_load name input s s1 :
  load_method name s = Returns Ok s1 ->
  execute name input s
  = bind (bind_inputs name input 0)
      (fun e =>
         match e with
         | Err c => ret (Failure c)
         | Ok => run_and_collect name
         end) s1.
Proof.
  intros Hl. unfold execute. rewrite (bind_eq _ _ _ _ _ Hl).
  destruct (load_method_ok_holder _ _ _ Hl) as [h Hh].
  by rewrite (bind_eq _ _ _ _ _ (methods_at_eq _ _ _ Hh)).
Qed.

(** [run_and_collect] once the run returned [Ok]. *)
Lemma run_and_collect_after_run name s2 s3 :
  call_method name Method_execute (Call_execute name) s2 = Returns Ok s3 ->
  exists h,
    methods_ (module s3) !! name = Some h /\
    forall e written meth w,
      Method_get_outputs (method h) (Method_outputs_size (method h))
        (world s3) = (e, written, meth, w) ->
      run_and_collect name s2
      = Returns
          (match e with
           | Err c => Failure c
           | Ok =>
               Value
                 (written_over
                    (replicate (Z.to_nat (Method_outputs_size (method h)))
                       EValue_default)
                    written)
           end)
          (after_method_call name h meth w
             (Call_get_outputs name (Method_outputs_size (method h)) e) s3).
Proof.
  intros Hrun. pose proof Hrun as Hinv.
  apply call_method_inv in Hinv as (h2 & meth2 & w2 & Hh2 & Hex & ->).
  eexists. split; [apply after_method_call_lookup|].
  intros e written meth w Hget.
  unfold run_and_collect. rewrite (bind_eq _ _ _ _ _ Hrun).
  rewrite (bind_eq _ _ _ _ _
             (methods_at_eq _ _ _ (after_method_call_lookup _ _ _ _ _ _))).
  erewrite (bind_eq _ _ _ _ _
              (call_method_eq name _ _ _ _ _ _ _
                 (after_method_call_lookup _ _ _ _ _ _) Hget)).
  simpl. by destruct e.
Qed.

(** What lies behind returned outputs. *)
Lemma execute_value_inv (name : string) (input : list EValue) (s : State)
    (outputs : list EValue) (s' : State) :
  execute name input s = Returns (Value outputs) s' ->
  exists s1 s2 s3 n,
    load_method name s = Returns Ok s1 /\
    bind_inputs name input 0 s1 = Returns Ok s2 /\
    trace s2 = trace s1 ++ bind_events name input 0 /\
    call_method name Method_execute (Call_execute name) s2 = Returns Ok s3 /\
    trace s' = trace s3 ++ [Call_get_outputs name n Ok].
Proof.
  intros Hex. unfold execute in Hex.
  apply bind_returns in Hex as ([|c] & s1 & Hload & Hex); [|done].
  apply bind_returns in Hex as (h & s1' & Hat & Hex).
  assert (s1' = s1) as ->.
  { unfold methods_at, bind, get_module, ret in Hat.
    destruct (methods_ (module s1) !! name); by simplify_eq. }
  apply bind_returns in Hex as ([|c] & s2 & Hbind & Hex); [|done].
  unfold run_and_collect in Hex.
  apply bind_returns in Hex as ([|c] & s3 & Hrun & Hex); [|done].
  apply bind_returns in Hex as (h3 & s3' & Hat3 & Hex).
  assert (s3' = s3) as ->.
  { unfold methods_at, bind, get_module, ret in Hat3.
    destruct (methods_ (module s3) !! name); by simplify_eq. }
  apply bind_returns in Hex as (r & s4 & Hget & Hex).
  apply call_method_inv in Hget as (h4 & meth & w & _ & _ & ->).
  destruct (r.1) eqn:Hr; [|done]. injection Hex as <- <-.
  exists s1, s2, s3, (Method_outputs_size (method h3)).
  repeat split; try done. by apply bind_inputs_ok.
Qed.


Lemma written_over_lookup (outputs : list EValue)
    (written : nat -> option EValue) (i : nat) (v : EValue) :
  outputs !! i = Some v ->
  written_over outputs written !! i = Some (default v (written i)).
Proof.
  intros Hi. unfold written_over. by rewrite list_lookup_imap, Hi.
Qed.

(** C7. When [execute(name, inputs)] returns outputs, they are the array of
    [outputs_size()] default values, built in this call, after
    [get_outputs] wrote into it: its length is the declared output arity;
    each slot holds what [get_outputs] wrote there, or the default value if
    it wrote nothing there; and every slot holds a value of the method when
    [get_outputs] fills the array it is given. *)
Theorem execute_outputs (name : string) (input : list EValue)
    (s : State) (outputs : list EValue) (s' : State) :
  execute name input s = Returns (Value outputs) s' ->
  exists s2 s3 h written meth w,
    call_method name Method_execute (Call_execute name) s2 = Returns Ok s3 /\
    methods_ (module s3) !! name = Some h /\
    Method_get_outputs (method h) (Method_outputs_size (method h)) (world s3)
    = (Ok, written, meth, w) /\
    s' = after_method_call name h meth w
           (Call_get_outputs name (Method_outputs_size (method h)) Ok) s3 /\
    outputs
    = written_over
        (replicate (Z.to_nat (Method_outputs_size (method h))) EValue_default)
        written /\
    length outputs = Z.to_nat (Method_outputs_size (method h)) /\
    (forall i, (i < length outputs)%nat ->
       outputs !! i = Some (default EValue_default (written i))) /\
    (get_outputs_fills (method h) (Method_outputs_size (method h)) (world s3) ->
     forall i, (i < length outputs)%nat ->
       exists v, written i = Some v /\ outputs !! i = Some v).
Proof.
  intros Hex.
  destruct (execute_value_inv name input s outputs s' Hex)
    as (s1 & s2 & s3 & n & Hload & Hbind & _ & Hrun & _).
  rewrite (execute_after_load _ _ _ _ Hload) in Hex.
  rewrite (bind_eq _ _ _ _ _ Hbind) in Hex.
  destruct (run_and_collect_after_run _ _ _ Hrun) as (h & Hh & Hrc).
  destruct (Method_get_outputs (method h) (Method_outputs_size (method h))
              (world s3)) as [[[e written] meth] w] eqn:Hget.
  rewrite (Hrc _ _ _ _ eq_refl) in Hex.
  destruct e as [|c]; [|done]. injection Hex as <- <-.
  exists s2, s3, h, written, meth, w.
  assert (Hlen : length (written_over
            (replicate (Z.to_nat (Method_outputs_size (method h)))
               EValue_default) written)
          = Z.to_nat (Method_outputs_size (method h))).
  { unfold written_over. by rewrite length_imap, length_replicate. }
  repeat split; try done.
  - intros i Hi. rewrite Hlen in Hi.
    apply written_over_lookup. by apply lookup_replicate_2.
  - intros Hfill i Hi. rewrite Hlen in Hi.
    destruct (Hfill i) as [v Hv]; [lia|]. rewrite Hget in Hv. simpl in Hv.
    exists v. split; [done|].
    rewrite (written_over_lookup _ _ i EValue_default), Hv; [done|].
    by apply lookup_replicate_2.
Qed.

(** ** [set_output_data_ptr] *)

Lemma load_method_others (name : string) :
  always (others_untouched name) (load_method name).
Proof.
  intros s. destruct (is_method_loaded name (module s)) eqn:Hl.
  { rewrite load_method_when_loaded by done. reflexivity. }
  pose proof (load_method_cases name s Hl) as Hc.
  destruct (load_method name s) as [[|c] s'|h s'] eqn:Hlm; simpl in *.
  - destruct Hc as (s1 & p & meta & Hload & Hp & Hmeta & Hs1 & Hmat).
    assert (methods_ (module (logged (Call_method_meta name (Value meta)) s1))
            !! name = None) as Hn.
    { simpl. rewrite Hs1. unfold is_method_loaded in Hl.
      by destruct (methods_ (module s) !! name). }
    pose proof (materialize_cases (program_object p) name meta _ Hn) as Hc.
    rewrite Hmat in Hc.
    destruct Hc as (bs & sb & meth & w & _ & _ & -> & Hsb).
    intros n Hne. simpl in *. rewrite lookup_insert_ne by done.
    by rewrite Hsb, Hs1.
  - intros n _. by rewrite Hc.
  - intros n _. by rewrite Hc.
Qed.

Lemma call_method_others {A} (name : string)
    (f : Method -> World -> A * Method * World) (ev : A -> Event) :
  always (others_untouched name) (call_method name f ev).
Proof.
  intros s. unfold call_method.
  destruct (methods_ (module s) !! name) as [h|]; [|reflexivity].
  destruct (f (method h) (world s)) as [[a meth] w]. simpl.
  intros n Hne. simpl. by rewrite lookup_insert_ne.
Qed.

(** C9. [setOutputDataPtr(tensor, index)] works on the method named
    "forward" and on no other.  (1)-(2) It forces [loadMethod("forward")] and
    ends as that call does when it does not return [Ok].  (3) Otherwise it
    makes one call, [set_output_data_ptr], on the method cached under
    "forward", with the tensor's data pointer, its byte length and the
    index, returns what that call returns and caches the method as the call
    left it.  (4) The cache entries under all other names are those of
    before. *)
Theorem set_output_data_ptr_forward (output_tensor : Tensor)
    (output_index : Z) (s : State) :
  (forall c s1,
     load_method "forward" s = Returns (Err c) s1 ->
     set_output_data_ptr output_tensor output_index s = Returns (Err c) s1) /\
  (forall h s1,
     load_method "forward" s = Halts h s1 ->
     set_output_data_ptr output_tensor output_index s = Halts h s1) /\
  (forall s1,
     load_method "forward" s = Returns Ok s1 ->
     exists h,
       methods_ (module s1) !! "forward" = Some h /\
       forall e meth w,
         Method_set_output_data_ptr (method h)
           (Tensor_mutable_data_ptr output_tensor)
           (Tensor_nbytes output_tensor) output_index (world s1)
         = (e, meth, w) ->
         set_output_data_ptr output_tensor output_index s
         = Returns e
             (after_method_call "forward" h meth w
                (Call_set_output_data_ptr "forward"
                   (Tensor_mutable_data_ptr output_tensor)
                   (Tensor_nbytes output_tensor) output_index e) s1) /\
         cached_method "forward"
           (final_state (set_output_data_ptr output_tensor output_index s))
         = Some meth) /\
  (forall n,
     n ≠ "forward" ->
     methods_
       (module
          (final_state (set_output_data_ptr output_tensor output_index s)))
     !! n
     = methods_ (module s) !! n).
Proof.
  split; [|split; [|split]].
  - intros c s1 Hload. unfold set_output_data_ptr.
    by rewrite (bind_eq _ _ _ _ _ Hload).
  - intros h s1 Hload. unfold set_output_data_ptr, bind. by rewrite Hload.
  - intros s1 Hload. destruct (load_method_ok_holder _ _ _ Hload) as [h Hh].
    exists h. split; [done|]. intros e meth w Hset.
    assert (set_output_data_ptr output_tensor output_index s
            = Returns e
                (after_method_call "forward" h meth w
                   (Call_set_output_data_ptr "forward"
                      (Tensor_mutable_data_ptr output_tensor)
                      (Tensor_nbytes output_tensor) output_index e) s1))
      as Heq.
    { unfold set_output_data_ptr. rewrite (bind_eq _ _ _ _ _ Hload).
      rewrite (bind_eq _ _ _ _ _ (methods_at_eq _ _ _ Hh)).
      by apply call_method_eq. }
    split; [done|]. rewrite Heq. unfold cached_method.
    simpl final_state. by rewrite after_method_call_lookup.
  - assert (always (others_untouched "forward")
              (set_output_data_ptr output_tensor output_index)) as Ha.
    { unfold set_output_data_ptr.
      repeat first
        [ apply load_method_others | apply call_method_others
        | always_step ]. }
    intros n Hn. by apply Ha.
Qed.

(** ** [execute] and the declared input arity *)

(** With more inputs than the arity, a bind fails at a position that is at
    most [K], and nothing is run. *)
Lemma bind_inputs_rejected (K : Z) (has_arity : Method -> Prop)
    (name : string) (input : list EValue) (index : Z) (s : State)
    (h : MethodHolder) :
  set_input_rejects_beyond K has_arity ->
  K <= INT_MAX ->
  methods_ (module s) !! name = Some h ->
  has_arity (method h) ->
  0 <= index <= K ->
  K < index + Z.of_nat (length input) ->
  exists c i v s',
    index <= i <= K /\
    input !! Z.to_nat (i - index) = Some v /\
    bind_inputs name input index s = Returns (Err c) s' /\
    (exists tr, trace s' = tr ++ [Call_set_input name v i (Err c)]) /\
    count_events runs_method (trace s') = count_events runs_method (trace s) /\
    (binding_failures has_arity -> c = InputBindingError).
Proof.
  intros Hc Hmax. revert index s h.
  induction input as [|v rest IH]; intros index s h Hh Ha Hpos Hlen;
    simpl in Hlen.
  - lia.
  - simpl bind_inputs.
    destruct (Method_set_input (method h) v index (world s))
      as [[e meth] w] eqn:Hset.
    destruct (Hc (method h) v index (world s) Ha) as (Ha' & Hrej).
    rewrite Hset in Ha', Hrej. simpl in Ha', Hrej.
    rewrite (bind_eq _ _ _ _ _
               (call_method_eq name _ (Call_set_input name v index)
                  _ _ _ _ _ Hh Hset)).
    destruct e as [|c].
    + assert (index < K) as Hlt.
      { destruct (Z_lt_ge_dec index K) as [?|Hge]; [done|].
        exfalso. apply Hrej; [lia|done]. }
      unfold bind at 1, int_incr. case_decide as Hi; [lia|]. unfold ret at 1.
      destruct (IH (index + 1)
                  (after_method_call name h meth w
                     (Call_set_input name v index Ok) s)
                  (set_method meth h))
        as (c & i & v' & s' & Hi' & Hv' & Hbind & Htr & Hcount & Hcode).
      * apply after_method_call_lookup.
      * done.
      * lia.
      * lia.
      * exists c, i, v', s'. split; [lia|]. split.
        { replace (Z.to_nat (i - index))
            with (S (Z.to_nat (i - (index + 1)))) by lia.
          done. }
        split; [done|]. split; [done|]. split; [|done].
        rewrite Hcount. simpl. by rewrite count_events_snoc, Nat.add_0_r.
    + exists c, index, v,
        (after_method_call name h meth w
           (Call_set_input name v index (Err c)) s).
      split; [lia|]. split; [by rewrite Z.sub_diag|].
      split; [done|]. split; [by exists (trace s)|]. split.
      * simpl. by rewrite count_events_snoc, Nat.add_0_r.
      * intros Hb. specialize (Hb (method h) v index (world s) Ha).
        rewrite Hset in Hb. simpl in Hb.
        assert (Err c = Err InputBindingError) as Heq by (by apply Hb).
        by injection Heq.
Qed.

(** [run_and_collect] runs the method it finds cached, once. *)
Lemma run_and_collect_runs name s2 :
  is_Some (methods_ (module s2) !! name) ->
  count_events runs_method (trace (final_state (run_and_collect name s2)))
  = S (count_events runs_method (trace s2)).
Proof.
  intros [h2 Hh2].
  destruct (Method_execute (method h2) (world s2)) as [[e meth] w] eqn:Hex.
  pose proof (call_method_eq name Method_execute (Call_execute name)
                _ _ _ _ _ Hh2 Hex) as Hrun.
  destruct e as [|c].
  - destruct (run_and_collect_after_run _ _ _ Hrun) as (h3 & _ & Hrc).
    destruct (Method_get_outputs (method h3) (Method_outputs_size (method h3))
                (world (after_method_call name h2 meth w
                          (Call_execute name Ok) s2)))
      as [[[e3 written] meth3] w3] eqn:Hget.
    rewrite (Hrc _ _ _ _ eq_refl). simpl.
    rewrite !count_events_snoc. simpl. lia.
  - unfold run_and_collect. rewrite (bind_eq _ _ _ _ _ Hrun). simpl.
    rewrite count_events_snoc. simpl. lia.
Qed.

(** C2, as the code has it.  Take a method cached under [name], of declared
    input arity [K]: its [set_input] fails at the positions that are not
    below [K].  (1) With more than [K] inputs, a bind fails, at position [K]
    at the latest; [execute] returns the error of that [set_input] call,
    which is the last call it makes, and the method is not run; the error
    is [InputBindingError] when that is what a failing bind gives.  (2) With
    [K] inputs or fewer, [execute] makes no check of the arity: a bind that
    fails is one at a position below [K], and its error is what [execute]
    returns; when the binds of the given inputs succeed, [execute] has made
    exactly these binds, goes on to run the method, once, and returns what
    running it and collecting its outputs give.  That there are fewer than
    [K] inputs is not noticed by [execute]. *)
Theorem execute_input_arity (K : Z) (has_arity : Method -> Prop)
    (name : string) (input : list EValue) (s s1 : State)
    (h : MethodHolder) :
  0 <= K <= INT_MAX ->
  set_input_rejects_beyond K has_arity ->
  load_method name s = Returns Ok s1 ->
  methods_ (module s1) !! name = Some h ->
  has_arity (method h) ->
  (K < Z.of_nat (length input) ->
   exists c i v s2,
     0 <= i <= K /\
     input !! Z.to_nat i = Some v /\
     execute name input s = Returns (Failure c) s2 /\
     (exists tr, trace s2 = tr ++ [Call_set_input name v i (Err c)]) /\
     count_events runs_method (trace s2)
     = count_events runs_method (trace s1) /\
     (binding_failures has_arity -> c = InputBindingError)) /\
  (Z.of_nat (length input) <= K ->
   (forall c s2,
      bind_inputs name input 0 s1 = Returns (Err c) s2 ->
      exists i v,
        0 <= i < K /\
        input !! Z.to_nat i = Some v /\
        execute name input s = Returns (Failure c) s2 /\
        (exists tr, trace s2 = tr ++ [Call_set_input name v i (Err c)])) /\
   (forall s2,
      bind_inputs name input 0 s1 = Returns Ok s2 ->
      trace s2 = trace s1 ++ bind_events name input 0 /\
      execute name input s = run_and_collect name s2 /\
      count_events runs_method (trace (final_state (execute name input s)))
      = S (count_events runs_method (trace s2)))).
Proof.
  intros HK Hc Hload Hh Ha.
  pose proof (execute_after_load name input _ _ Hload) as Hexec.
  split.
  - intros Hlen.
    destruct (bind_inputs_rejected K has_arity name input 0 s1 h Hc)
      as (c & i & v & s2 & Hi & Hv & Hbind & Htr & Hcount & Hcode);
      try done; try lia.
    exists c, i, v, s2. rewrite Z.sub_0_r in Hv.
    split; [done|]. split; [done|].
    split; [|done].
    rewrite Hexec. by rewrite (bind_eq _ _ _ _ _ Hbind).
  - intros Hlen. split.
    + intros c s2 Hbind.
      destruct (bind_inputs_err _ _ _ _ _ _ Hbind)
        as (pre & v & post & sb & hb & meth & w & Hin & _ & _ & _ & Hs2).
      exists (Z.of_nat (length pre)), v.
      assert (length input = (length pre + S (length post))%nat) as Hl.
      { rewrite Hin, length_app. done. }
      split; [lia|]. split.
      { rewrite Nat2Z.id, Hin. apply list_lookup_middle. done. }
      split; [rewrite Hexec; by rewrite (bind_eq _ _ _ _ _ Hbind)|].
      exists (trace sb). rewrite Hs2. simpl. by rewrite Z.add_0_l.
    + intros s2 Hbind.
      split; [by apply bind_inputs_ok|].
      assert (execute name input s = run_and_collect name s2) as Heq.
      { rewrite Hexec. by rewrite (bind_eq _ _ _ _ _ Hbind). }
      split; [done|]. rewrite Heq. apply run_and_collect_runs.
      assert (is_Some (methods_ (module s1) !! name)) as Hs by eauto.
      pose proof (keeps_bind_inputs name input 0 s1) as Hk.
      rewrite Hbind in Hk. simpl in Hk. by apply (keeps_methods _ _ Hk).
Qed.

(** ** A scheme for what every operation keeps *)

Section Fine.

Variable R : State -> State -> Prop.
Context `{!Reflexive R, !Transitive R}.

Hypothesis R_call_world :
  forall A (f : World -> A * World) (ev : A -> Event),
    (forall a, load_event (ev a) = false) -> always R (call_world f ev).
Hypothesis R_call_pure :
  forall A (a : A) (ev : A -> Event),
    (forall a, load_event (ev a) = false) -> always R (call_pure a ev).
Hypothesis R_emplace_holder : forall n h, always R (emplace_holder n h).

Lemma fine_new_planned_buffer n z : always R (new_planned_buffer n z).
Proof.
  unfold new_planned_buffer. repeat case_decide; repeat always_step.
  by apply R_call_world.
Qed.

Lemma fine_realize_plan name meta n index buffers spans :
  always R (realize_plan name meta n index buffers spans).
Proof.
  revert index buffers spans.
  induction n as [|n IH]; intros index buffers spans; simpl.
  - always_step.
  - repeat first
      [ apply fine_new_planned_buffer | by apply R_call_pure | always_step ].
    apply IH.
Qed.

Lemma fine_materialize p name meta : always R (materialize p name meta).
Proof.
  unfold materialize.
  repeat first
    [ apply fine_realize_plan | apply R_emplace_holder
    | by apply R_call_world | always_step ].
Qed.

End Fine.

Section Coarse.

Variable R : State -> State -> Prop.
Context `{!Reflexive R, !Transitive R}.

Hypothesis R_load : forall v, always R (load v).
Hypothesis R_materialize : forall p n meta, always R (materialize p n meta).
Hypothesis R_call_pure :
  forall A (a : A) (ev : A -> Event),
    (forall a, load_event (ev a) = false) -> always R (call_pure a ev).
Hypothesis R_call_method :
  forall A n (f : Method -> World -> A * Method * World) (ev : A -> Event),
    (forall a, load_event (ev a) = false) -> always R (call_method n f ev).
Hypothesis R_outside : forall f, always R (outside f).

Ltac coarse_step :=
  first
    [ apply R_load | apply R_materialize | apply R_outside
    | by apply R_call_pure | by apply R_call_method | always_step ].

Lemma coarse_collect_method_names p n index result :
  always R (collect_method_names p n index result).
Proof.
  revert index result. induction n as [|n IH]; intros index result; simpl.
  - always_step.
  - repeat coarse_step. apply IH.
Qed.

Lemma coarse_method_names : always R method_names.
Proof.
  unfold method_names.
  repeat first [apply coarse_collect_method_names | coarse_step].
Qed.

Lemma coarse_load_method name : always R (load_method name).
Proof. unfold load_method. repeat coarse_step. Qed.

Lemma coarse_method_meta name : always R (method_meta name).
Proof.
  unfold method_meta. repeat first [apply coarse_load_method | coarse_step].
Qed.

Lemma coarse_bind_inputs name input index :
  always R (bind_inputs name input index).
Proof.
  revert index. induction input as [|v rest IH]; intros index; simpl.
  - always_step.
  - repeat coarse_step. apply IH.
Qed.

Lemma coarse_run_and_collect name : always R (run_and_collect name).
Proof. unfold run_and_collect. repeat coarse_step. Qed.

Lemma coarse_execute name input : always R (execute name input).
Proof.
  unfold execute.
  repeat first
    [ apply coarse_load_method | apply coarse_bind_inputs
    | apply coarse_run_and_collect | coarse_step ].
Qed.

Lemma coarse_set_output_data_ptr t i : always R (set_output_data_ptr t i).
Proof.
  unfold set_output_data_ptr.
  repeat first [apply coarse_load_method | coarse_step].
Qed.

Lemma coarse_run_call c : always R (run_call c).
Proof.
  destruct c; simpl;
    repeat first
      [ apply coarse_method_names | apply coarse_load_method
      | apply coarse_method_meta | apply coarse_execute
      | apply coarse_set_output_data_ptr | coarse_step ].
Qed.

Lemma coarse_run_calls cs s : R s (run_calls cs s).
Proof.
  revert s. induction cs as [|c cs IH]; intros s; simpl; [reflexivity|].
  pose proof (coarse_run_call c s) as Hc.
  destruct (run_call c s) as [a s1|h s1]; simpl in Hc.
  - etrans; [exact Hc|apply IH].
  - destruct h; [etrans; [exact Hc|apply IH]|done|done].
Qed.

End Coarse.

(** ** Storage is left alone once a program is set *)

#[local] Instance storage_quiet_reflexive : Reflexive storage_quiet.
Proof. intros s _. by split. Qed.

#[local] Instance storage_quiet_transitive : Transitive storage_quiet.
Proof.
  intros s1 s2 s3 H12 H23 Hl. destruct (H12 Hl) as [Hp12 Hn12].
  assert (is_loaded (module s2) = true) as Hl2.
  { unfold is_loaded in *. by rewrite Hp12. }
  destruct (H23 Hl2) as [Hp23 Hn23].
  split; [congruence|]. by etrans.
Qed.

Lemma load_event_false (e : Event) :
  load_event e = false ->
  enters_load e = false /\ requests_accessor e = false /\
  requests_parse e = false.
Proof.
  unfold load_event. intros H. apply orb_false_iff in H as [H H3].
  apply orb_false_iff in H as [H1 H2]. done.
Qed.

Lemma no_request_same_module (s : State) (w : World) (e : Event) :
  load_event e = false ->
  no_request s (mkState (module s) w (trace s ++ [e])).
Proof.
  intros (_ & Ha & Hp)%load_event_false. unfold no_request. simpl.
  rewrite !count_events_snoc, Ha, Hp. lia.
Qed.

Lemma storage_quiet_load v : always storage_quiet (load v).
Proof.
  intros s Hl. rewrite load_when_loaded by done. simpl.
  split; [done|]. unfold no_request. simpl.
  rewrite !count_events_snoc. simpl. lia.
Qed.

Lemma storage_quiet_call_world A (f : World -> A * World) (ev : A -> Event) :
  (forall a, load_event (ev a) = false) ->
  always storage_quiet (call_world f ev).
Proof.
  intros He s _. unfold call_world. destruct (f (world s)) as [a w]. simpl.
  split; [done|]. by apply no_request_same_module.
Qed.

Lemma storage_quiet_call_pure A (a : A) (ev : A -> Event) :
  (forall a, load_event (ev a) = false) ->
  always storage_quiet (call_pure a ev).
Proof.
  intros He s _. simpl. split; [done|]. by apply no_request_same_module.
Qed.

Lemma storage_quiet_emplace_holder n h :
  always storage_quiet (emplace_holder n h).
Proof.
  intros s _.
  destruct (emplace_holder_returns n h s) as (s' & -> & Hs'). simpl.
  destruct (methods_ (module s) !! n); subst s'; [by split|].
  simpl. split; [done|]. unfold no_request. simpl.
  rewrite !count_events_snoc. simpl. lia.
Qed.

Lemma storage_quiet_call_method A n
    (f : Method -> World -> A * Method * World) (ev : A -> Event) :
  (forall a, load_event (ev a) = false) ->
  always storage_quiet (call_method n f ev).
Proof.
  intros He s _. unfold call_method.
  destruct (methods_ (module s) !! n) as [h|]; [|by split].
  destruct (f (method h) (world s)) as [[a meth] w]. simpl.
  split; [done|].
  destruct (load_event_false _ (He a)) as (_ & Ha & Hp).
  unfold no_request. simpl. rewrite !count_events_snoc, Ha, Hp. lia.
Qed.

Lemma storage_quiet_outside f : always storage_quiet (outside f).
Proof. intros s _. simpl. by split. Qed.

(** X1. Once a program is set, by [load()] or by the constructor that takes
    a program, it is never replaced and storage is never touched again:
    whatever is called afterwards, the program pointer is the same and no
    accessor and no parse is asked for. *)
Theorem storage_quiet_once_loaded (cs : list ApiCall) (s : State) :
  is_loaded (module s) = true ->
  program_ (module (run_calls cs s)) = program_ (module s) /\
  count_events requests_accessor (trace (run_calls cs s))
  = count_events requests_accessor (trace s) /\
  count_events requests_parse (trace (run_calls cs s))
  = count_events requests_parse (trace s).
Proof.
  intros Hl.
  assert (storage_quiet s (run_calls cs s)) as Hq.
  { apply (coarse_run_calls storage_quiet).
    - apply storage_quiet_load.
    - intros p n meta. apply (fine_materialize storage_quiet).
      + apply storage_quiet_call_world.
      + apply storage_quiet_call_pure.
      + apply storage_quiet_emplace_holder.
    - apply storage_quiet_call_pure.
    - apply storage_quiet_call_method.
    - apply storage_quiet_outside. }
  destruct (Hq Hl) as [Hp [Ha Hr]]. done.
Qed.

(** ** A data loader is asked for at most while there is none *)

#[local] Instance loader_kept_reflexive : Reflexive loader_kept.
Proof. by intros s H. Qed.

#[local] Instance loader_kept_transitive : Transitive loader_kept.
Proof.
  intros s1 s2 s3 H12 H23 H. destruct (H12 H) as [H2 Hc12].
  destruct (H23 H2) as [H3 Hc23]. split; [done|congruence].
Qed.

Lemma loader_kept_same_module (s : State) (w : World) (e : Event) :
  load_event e = false ->
  loader_kept s (mkState (module s) w (trace s ++ [e])).
Proof.
  intros (_ & Ha & _)%load_event_false H. simpl. split; [done|].
  rewrite count_events_snoc, Ha. lia.
Qed.

Lemma loader_kept_load v : always loader_kept (load v).
Proof.
  intros s H.
  unfold load, load_program, make_data_loader, call_world, bind, log,
    get_module, set_module, ret, is_loaded. simpl.
  repeat case_match; simplify_eq/=;
    try (destruct H as [[? ?]|[? ?]]; congruence);
    (split;
     [first [by left; eauto | by right; eauto]
     |repeat (rewrite !count_events_snoc; simpl); lia]).
Qed.

Lemma loader_kept_call_world A (f : World -> A * World) (ev : A -> Event) :
  (forall a, load_event (ev a) = false) ->
  always loader_kept (call_world f ev).
Proof.
  intros He s. unfold call_world. destruct (f (world s)) as [a w]. simpl.
  by apply loader_kept_same_module.
Qed.

Lemma loader_kept_call_pure A (a : A) (ev : A -> Event) :
  (forall a, load_event (ev a) = false) ->
  always loader_kept (call_pure a ev).
Proof. intros He s. simpl. by apply loader_kept_same_module. Qed.

Lemma loader_kept_emplace_holder n h :
  always loader_kept (emplace_holder n h).
Proof.
  intros s H.
  destruct (emplace_holder_returns n h s) as (s' & -> & Hs'). simpl.
  destruct (methods_ (module s) !! n); subst s'; [by split|].
  simpl. split; [done|]. rewrite count_events_snoc. simpl. lia.
Qed.

Lemma loader_kept_call_method A n
    (f : Method -> World -> A * Method * World) (ev : A -> Event) :
  (forall a, load_event (ev a) = false) ->
  always loader_kept (call_method n f ev).
Proof.
  intros He s H. unfold call_method.
  destruct (methods_ (module s) !! n) as [h|]; [|by split].
  destruct (f (method h) (world s)) as [[a meth] w]. simpl.
  split; [done|].
  destruct (load_event_false _ (He a)) as (_ & Ha & _).
  rewrite count_events_snoc, Ha. lia.
Qed.

Lemma loader_kept_outside f : always loader_kept (outside f).
Proof. intros s H. simpl. by split. Qed.

(** X2. A module that has a data loader, injected at construction or built
    by an earlier [load()], or that has a program, never asks for an
    accessor: whatever is called, the number of accessor requests stays
    the same, and the module keeps a data loader or a program. *)
Theorem loader_never_requested_again (cs : list ApiCall) (s : State) :
  is_Some (data_loader_ (module s)) \/ is_Some (program_ (module s)) ->
  (is_Some (data_loader_ (module (run_calls cs s))) \/
   is_Some (program_ (module (run_calls cs s)))) /\
  count_events requests_accessor (trace (run_calls cs s))
  = count_events requests_accessor (trace s).
Proof.
  intros H.
  assert (loader_kept s (run_calls cs s)) as Hq.
  { apply (coarse_run_calls loader_kept).
    - apply loader_kept_load.
    - intros p n meta. apply (fine_materialize loader_kept).
      + apply loader_kept_call_world.
      + apply loader_kept_call_pure.
      + apply loader_kept_emplace_holder.
    - apply loader_kept_call_pure.
    - apply loader_kept_call_method.
    - apply loader_kept_outside. }
  by apply Hq.
Qed.

(** ** The cache only grows, and a holder keeps its buffers *)

Lemma same_frame_refl h : same_frame h h.
Proof. by repeat split. Qed.

#[local] Instance holders_stable_reflexive : Reflexive holders_stable.
Proof. intros s n h Hh. exists h. split; [done|apply same_frame_refl]. Qed.

#[local] Instance holders_stable_transitive : Transitive holders_stable.
Proof.
  intros s1 s2 s3 H12 H23 n h Hh.
  destruct (H12 n h Hh) as (h2 & Hh2 & F12).
  destruct (H23 n h2 Hh2) as (h3 & Hh3 & F23).
  exists h3. split; [done|].
  destruct F12 as (? & ? & ? & ?), F23 as (? & ? & ? & ?).
  repeat split; congruence.
Qed.

Lemma holders_stable_same_methods (s s' : State) :
  same_methods s s' -> holders_stable s s'.
Proof.
  intros Hs n h Hh. exists h. rewrite Hs. split; [done|apply same_frame_refl].
Qed.

Lemma holders_stable_load v : always holders_stable (load v).
Proof. intros s. apply holders_stable_same_methods, same_methods_load. Qed.

Lemma holders_stable_call_world A (f : World -> A * World) (ev : A -> Event) :
  always holders_stable (call_world f ev).
Proof.
  intros s. apply holders_stable_same_methods, same_methods_call_world.
Qed.

Lemma holders_stable_call_pure A (a : A) (ev : A -> Event) :
  always holders_stable (call_pure a ev).
Proof. intros s. by apply holders_stable_same_methods. Qed.

Lemma holders_stable_emplace_holder n h :
  always holders_stable (emplace_holder n h).
Proof.
  intros s.
  destruct (emplace_holder_returns n h s) as (s' & -> & Hs'). simpl.
  destruct (methods_ (module s) !! n) eqn:Hn; subst s'; [reflexivity|].
  intros m hm Hm. exists hm. simpl. split; [|apply same_frame_refl].
  rewrite lookup_insert_ne; [done|]. intros ->. congruence.
Qed.

Lemma holders_stable_call_method A n
    (f : Method -> World -> A * Method * World) (ev : A -> Event) :
  always holders_stable (call_method n f ev).
Proof.
  intros s. unfold call_method.
  destruct (methods_ (module s) !! n) as [h|] eqn:Hn; [|reflexivity].
  destruct (f (method h) (world s)) as [[a meth] w]. simpl.
  intros m hm Hm. simpl. destruct (decide (n = m)) as [->|Hne].
  - rewrite lookup_insert_eq. exists (set_method meth h).
    split; [done|]. assert (hm = h) as -> by congruence. by repeat split.
  - rewrite lookup_insert_ne by done. exists hm.
    split; [done|apply same_frame_refl].
Qed.

Lemma holders_stable_outside f : always holders_stable (outside f).
Proof. intros s. by apply holders_stable_same_methods. Qed.

(** X3. Nothing is ever taken out of the method cache, and a cached holder
    is never rebuilt: whatever is called on the module, a holder cached
    under a name is still cached under it afterwards, with as many planned
    buffers as before, each of the size it had, and the same spans, planned
    memory and memory manager.  What the buffers hold is the business of
    the method, which writes into them, and is not part of the statement. *)
Theorem holders_are_stable (cs : list ApiCall) (s : State) (n : string)
    (h : MethodHolder) :
  methods_ (module s) !! n = Some h ->
  exists h',
    methods_ (module (run_calls cs s)) !! n = Some h' /\
    length <$> planned_buffers h' = length <$> planned_buffers h /\
    planned_spans h' = planned_spans h /\
    planned_memory h' = planned_memory h /\
    memory_manager h' = memory_manager h.
Proof.
  assert (holders_stable s (run_calls cs s)) as Hq.
  { apply (coarse_run_calls holders_stable).
    - apply holders_stable_load.
    - intros p m meta. apply (fine_materialize holders_stable).
      + intros. apply holders_stable_call_world.
      + intros. apply holders_stable_call_pure.
      + apply holders_stable_emplace_holder.
    - intros. apply holders_stable_call_pure.
    - intros. apply holders_stable_call_method.
    - apply holders_stable_outside. }
  intros Hh. destruct (Hq n h Hh) as (h' & Hh' & F). by exists h'.
Qed.

(** ** The configuration is fixed and the cache is well formed *)

#[local] Instance same_configuration_reflexive :
  Reflexive same_configuration.
Proof. intros s. by repeat split. Qed.

#[local] Instance same_configuration_transitive :
  Transitive same_configuration.
Proof.
  intros s1 s2 s3 (? & ? & ? & ? & ?) (? & ? & ? & ? & ?).
  repeat split; congruence.
Qed.

Lemma same_configuration_module (s s' : State) :
  module s' = module s -> same_configuration s s'.
Proof. intros H. unfold same_configuration. rewrite H. by repeat split. Qed.

Lemma same_configuration_load v : always same_configuration (load v).
Proof.
  intros s.
  unfold load, load_program, make_data_loader, call_world, bind, log,
    get_module, set_module, ret, same_configuration. simpl.
  repeat case_match; simplify_eq/=; by repeat split.
Qed.

Lemma same_configuration_call_world A (f : World -> A * World)
    (ev : A -> Event) :
  always same_configuration (call_world f ev).
Proof.
  intros s. unfold call_world. destruct (f (world s)).
  by apply same_configuration_module.
Qed.

Lemma same_configuration_call_pure A (a : A) (ev : A -> Event) :
  always same_configuration (call_pure a ev).
Proof. intros s. by apply same_configuration_module. Qed.

Lemma same_configuration_emplace_holder n h :
  always same_configuration (emplace_holder n h).
Proof.
  intros s.
  destruct (emplace_holder_returns n h s) as (s' & -> & Hs'). simpl.
  destruct (methods_ (module s) !! n); subst s'; [reflexivity|].
  by repeat split.
Qed.

Lemma same_configuration_call_method A n
    (f : Method -> World -> A * Method * World) (ev : A -> Event) :
  always same_configuration (call_method n f ev).
Proof.
  intros s. unfold call_method.
  destruct (methods_ (module s) !! n) as [h|]; [|reflexivity].
  destruct (f (method h) (world s)) as [[a meth] w]. by repeat split.
Qed.

Lemma same_configuration_realize_plan name meta n index buffers spans :
  always same_configuration (realize_plan name meta n index buffers spans).
Proof.
  apply (fine_realize_plan same_configuration).
  - intros. apply same_configuration_call_world.
  - intros. apply same_configuration_call_pure.
Qed.

#[local] Instance keeps_well_formed_reflexive : Reflexive keeps_well_formed.
Proof. intros s. split; [reflexivity|done]. Qed.

#[local] Instance keeps_well_formed_transitive :
  Transitive keeps_well_formed.
Proof.
  intros s1 s2 s3 [C12 W12] [C23 W23]. split; [by etrans|auto].
Qed.

Lemma holder_well_formed_configuration (s s' : State) (h : MethodHolder) :
  same_configuration s s' ->
  holder_well_formed (module s) h -> holder_well_formed (module s') h.
Proof.
  intros (_ & _ & Hm & Ht & _) (? & ? & ? & ? & ?).
  repeat split; congruence.
Qed.

Lemma keeps_well_formed_same_methods (s s' : State) :
  same_configuration s s' -> same_methods s s' -> keeps_well_formed s s'.
Proof.
  intros Hc Hs. split; [done|]. intros Hw n h Hh. rewrite Hs in Hh.
  by apply (holder_well_formed_configuration s s'), (Hw n).
Qed.

Lemma materialize_when_cached (p : Program) (name : string)
    (meta : MethodMeta) (s : State) (h : MethodHolder) :
  methods_ (module s) !! name = Some h ->
  same_methods s (final_state (materialize p name meta s)).
Proof.
  intros Hn. unfold materialize.
  pose proof (same_methods_realize_plan name meta
    (Z.to_nat (MethodMeta_num_memory_planned_buffers meta)) 0 [] [] s) as Hs.
  unfold bind at 1.
  destruct (realize_plan _ _ _ _ _ _ s) as [bs sb|hh sb]; simpl in Hs; [|done].
  unfold bind, get_module, call_world, ret. simpl.
  destruct (Program_load_method _ _ _ _ _ _ _) as [[meth|c] w]; simpl;
    [|done].
  match goal with
  | |- context [emplace_holder ?n ?h ?st] =>
      destruct (emplace_holder_returns n h st) as (s' & -> & Hs')
  end.
  simpl in Hs'. rewrite Hs, Hn in Hs'. by subst s'.
Qed.

Lemma keeps_well_formed_materialize p name meta :
  always keeps_well_formed (materialize p name meta).
Proof.
  intros s.
  assert (same_configuration s (final_state (materialize p name meta s)))
    as Hc.
  { apply (fine_materialize same_configuration).
    - intros. apply same_configuration_call_world.
    - intros. apply same_configuration_call_pure.
    - apply same_configuration_emplace_holder. }
  destruct (methods_ (module s) !! name) as [h0|] eqn:Hn.
  { apply keeps_well_formed_same_methods; [done|].
    by apply (materialize_when_cached p name meta s h0). }
  pose proof (materialize_cases p name meta s Hn) as Hcases.
  destruct (materialize p name meta s) as [[|c] s'|hh s'] eqn:Hmat;
    simpl in *; try by apply keeps_well_formed_same_methods.
  split; [done|]. intros Hw n h Hh.
  destruct Hcases as (bs & sb & meth & w & Hplan & _ & -> & Hsb).
  pose proof (same_configuration_realize_plan name meta
    (Z.to_nat (MethodMeta_num_memory_planned_buffers meta)) 0 [] [] s) as Hcb.
  rewrite Hplan in Hcb. simpl in Hcb.
  simpl in Hh. destruct (decide (name = n)) as [->|Hne].
  - rewrite lookup_insert_eq in Hh. injection Hh as <-.
    apply realize_plan_spec in Hplan as (sizes & _ & Hb & Hsp & Hsizes).
    simpl in Hb, Hsp. unfold holder_well_formed. simpl.
    rewrite Hb, Hsp. split; [|done].
    rewrite spans_of_zero_buffers; [done|].
    intros i z Hz. destruct (Hsizes i z Hz) as [? _]. lia.
  - rewrite lookup_insert_ne in Hh by done. rewrite Hsb in Hh.
    apply (holder_well_formed_configuration s); [done|]. by apply (Hw n).
Qed.

Lemma keeps_well_formed_call_method A n
    (f : Method -> World -> A * Method * World) (ev : A -> Event) :
  always keeps_well_formed (call_method n f ev).
Proof.
  intros s. split; [apply same_configuration_call_method|].
  unfold call_method.
  destruct (methods_ (module s) !! n) as [h|] eqn:Hn; [|done].
  destruct (f (method h) (world s)) as [[a meth] w]. simpl.
  intros Hw m hm Hm. simpl in Hm.
  destruct (decide (n = m)) as [->|Hne].
  - rewrite lookup_insert_eq in Hm. injection Hm as <-.
    exact (Hw m h Hn).
  - rewrite lookup_insert_ne in Hm by done. exact (Hw m hm Hm).
Qed.

Lemma constructed_well_formed (s : State) :
  constructed s -> cache_well_formed s.
Proof.
  intros [(path & mode & tracer & w & ->)
         |[(d & a & t & tracer & w & ->)|(p & a & t & tracer & w & ->)]];
    intros n h Hh; simpl in Hh; by rewrite lookup_empty in Hh.
Qed.

(** X4. Whatever is called on a module after its construction, its file
    path, load mode, two allocators and tracer are those the constructor
    set, and every cached holder is as [load_method] assembles it: one span
    per planned buffer, pointing at that buffer and of its size, the
    hierarchical allocator over exactly these spans, and a memory manager
    made of the module's allocator, that hierarchical allocator and the
    module's temporary allocator. *)
Theorem cache_is_well_formed (cs : list ApiCall) (s0 : State) :
  constructed s0 ->
  same_configuration s0 (run_calls cs s0) /\
  forall n h,
    methods_ (module (run_calls cs s0)) !! n = Some h ->
    planned_spans h = spans_of_buffers (planned_buffers h) /\
    hierarchical_spans (planned_memory h) = planned_spans h /\
    method_allocator (memory_manager h) = memory_allocator_ (module s0) /\
    planned_memory_of (memory_manager h) = planned_memory h /\
    temp_allocator_of (memory_manager h) = temp_allocator_ (module s0).
Proof.
  intros Hc.
  assert (keeps_well_formed s0 (run_calls cs s0)) as [Hconf Hw].
  { apply (coarse_run_calls keeps_well_formed).
    - intros v s. apply keeps_well_formed_same_methods.
      + apply same_configuration_load.
      + apply same_methods_load.
    - apply keeps_well_formed_materialize.
    - intros A a ev _ s. by apply keeps_well_formed_same_methods.
    - intros. apply keeps_well_formed_call_method.
    - intros f s. by apply keeps_well_formed_same_methods. }
  split; [done|]. intros n h Hh.
  destruct (Hw (constructed_well_formed s0 Hc) n h Hh)
    as (H1 & H2 & H3 & H4 & H5).
  destruct Hconf as (_ & _ & Hm & Ht & _).
  repeat split; congruence.
Qed.

(** ** [method_meta] *)

(** X5. [methodMeta(name)] forces [loadMethod(name)] and returns its error
    if it fails; otherwise it returns the metadata the cached method object
    gives, in the state [loadMethod] left, and [methods_.at(name)] never
    throws.  For a name that is already cached the state is untouched and
    no collaborator is called. *)
Theorem method_meta_spec (name : string) (s : State) :
  (forall c s1,
     load_method name s = Returns (Err c) s1 ->
     method_meta name s = Returns (Failure c) s1) /\
  (forall s1,
     load_method name s = Returns Ok s1 ->
     exists h,
       methods_ (module s1) !! name = Some h /\
       method_meta name s
       = Returns (Value (Method_method_meta (method h))) s1) /\
  (forall h,
     methods_ (module s) !! name = Some h ->
     method_meta name s = Returns (Value (Method_method_meta (method h))) s).
Proof.
  assert (forall s1,
     load_method name s = Returns Ok s1 ->
     exists h,
       methods_ (module s1) !! name = Some h /\
       method_meta name s
       = Returns (Value (Method_method_meta (method h))) s1) as Hok.
  { intros s1 Hl. destruct (load_method_ok_holder _ _ _ Hl) as [h Hh].
    exists h. split; [done|]. unfold method_meta.
    rewrite (bind_eq _ _ _ _ _ Hl).
    by rewrite (bind_eq _ _ _ _ _ (methods_at_eq _ _ _ Hh)). }
  split; [|split; [exact Hok|]].
  - intros c s1 Hl. unfold method_meta. by rewrite (bind_eq _ _ _ _ _ Hl).
  - intros h Hh.
    assert (load_method name s = Returns Ok s) as Hl.
    { apply load_method_when_loaded. unfold is_method_loaded. by rewrite Hh. }
    destruct (Hok s Hl) as (h' & Hh' & ->). congruence.
Qed.

(** ** How [load] ends *)

(** X6. When [load()] returns an error, no program is set and the cache is
    as before.  Either the accessor could not be built, and then the module
    is unchanged and no parse was asked for; or the parse failed, and then
    the module keeps the data loader it parsed from, the one it had or the
    one this call built, for the next [load()] to use. *)
Theorem load_failure_state (v : Verification) (s : State) (c : ErrorCode)
    (s1 : State) :
  load v s = Returns (Err c) s1 ->
  program_ (module s1) = None /\
  methods_ (module s1) = methods_ (module s) /\
  ((module s1 = module s /\
    data_loader_ (module s) = None /\
    count_events requests_parse (trace s1)
    = count_events requests_parse (trace s))
   \/
   (exists d tr,
      data_loader_ (module s1) = Some d /\
      trace s1 = tr ++ [Call_Program_load d v (Failure c)] /\
      (forall d0, data_loader_ (module s) = Some d0 -> d0 = d))).
Proof.
  unfold load, load_program, make_data_loader, call_world, bind, log,
    get_module, set_module, ret, is_loaded. simpl.
  repeat case_match; simplify_eq/=; intros; simplify_eq/=;
    (split; [done|]); (split; [done|]);
    first
      [ left; split; [reflexivity|];
        split; [done|]; repeat (rewrite !count_events_snoc; simpl); lia
      | right; eexists _, _; split; [first [reflexivity|eassumption]|];
        split; [reflexivity|]; intros; congruence ].
Qed.

(** X7. When [load()] returns [Ok] on a module without a program, the
    program it set is the one parsed in this call, the last collaborator
    called, and it holds on to the data loader it was parsed from, which
    left the module's own field; a data loader the module already had is
    that one, and then no accessor was asked for.  The cache is as
    before. *)
Theorem load_success_state (v : Verification) (s s1 : State) :
  is_loaded (module s) = false ->
  load v s = Returns Ok s1 ->
  exists d p tr,
    program_ (module s1) = Some (mkProgramPtr p (Some d)) /\
    data_loader_ (module s1) = None /\
    trace s1 = tr ++ [Call_Program_load d v (Value p)] /\
    methods_ (module s1) = methods_ (module s) /\
    (forall d0,
       data_loader_ (module s) = Some d0 ->
       d0 = d /\
       count_events requests_accessor (trace s1)
       = count_events requests_accessor (trace s)).
Proof.
  unfold load, load_program, make_data_loader, call_world, bind, log,
    get_module, set_module, ret, is_loaded. simpl.
  repeat case_match; simplify_eq/=; intros; simplify_eq/=;
    repeat match goal with
           | H : data_loader_ (module s) = _ |- _ => rewrite H
           end;
    eexists _, _, _; (split; [reflexivity|]); (split; [reflexivity|]);
    (split; [reflexivity|]); (split; [reflexivity|]);
    intros; simplify_eq/=; split; [done|];
    repeat (rewrite !count_events_snoc; simpl); lia.
Qed.

(** ** [execute] on a cached method *)

#[local] Instance only_method_events_reflexive n :
  Reflexive (only_method_events n).
Proof. intros s. exists []. by rewrite app_nil_r. Qed.

#[local] Instance only_method_events_transitive n :
  Transitive (only_method_events n).
Proof.
  intros s1 s2 s3 (e12 & H12 & F12) (e23 & H23 & F23).
  exists (e12 ++ e23). rewrite H23, H12, <- app_assoc.
  split; [done|]. by apply Forall_app.
Qed.

#[local] Instance only_cache_changes_reflexive : Reflexive only_cache_changes.
Proof. intros s. unfold only_cache_changes. by destruct (module s). Qed.

#[local] Instance only_cache_changes_transitive :
  Transitive only_cache_changes.
Proof.
  unfold only_cache_changes. intros s1 s2 s3 H12 H23.
  rewrite H23 at 1. rewrite H12 at 1. done.
Qed.

Section OneMethod.

Variable name : string.
Variable R : State -> State -> Prop.
Context `{!Reflexive R, !Transitive R}.

Hypothesis R_call_method :
  forall A (f : Method -> World -> A * Method * World) (ev : A -> Event),
    (forall a, method_event name (ev a) = true) ->
    always R (call_method name f ev).

Lemma one_method_bind_inputs input index :
  always R (bind_inputs name input index).
Proof.
  revert index. induction input as [|v rest IH]; intros index; simpl.
  - always_step.
  - repeat first
      [ apply R_call_method; intros; simpl; by apply bool_decide_eq_true_2
      | always_step ].
    apply IH.
Qed.

Lemma one_method_run_and_collect : always R (run_and_collect name).
Proof.
  unfold run_and_collect.
  repeat first
    [ apply R_call_method; intros; simpl; by apply bool_decide_eq_true_2
    | always_step ].
Qed.

End OneMethod.

Lemma only_method_events_call_method name A
    (f : Method -> World -> A * Method * World) (ev : A -> Event) :
  (forall a, method_event name (ev a) = true) ->
  always (only_method_events name) (call_method name f ev).
Proof.
  intros He s. unfold call_method.
  destruct (methods_ (module s) !! name) as [h|]; [|reflexivity].
  destruct (f (method h) (world s)) as [[a meth] w]. simpl.
  exists [ev a]. split; [done|]. by constructor.
Qed.

Lemma only_cache_changes_call_method name A
    (f : Method -> World -> A * Method * World) (ev : A -> Event) :
  always only_cache_changes (call_method name f ev).
Proof.
  intros s. unfold call_method.
  destruct (methods_ (module s) !! name) as [h|]; [|reflexivity].
  by destruct (f (method h) (world s)) as [[a meth] w].
Qed.

(** X8. On a method that is already cached, [execute] touches that method
    and nothing else: however it ends, the only collaborator calls it made
    are [set_input], [execute] and [get_outputs] on that method (no load,
    no parse, no metadata lookup, no allocation, no materialization), the
    module differs at most in its cache, and the cache differs at most in
    the entry of that name.  When it returns outputs, the calls were
    exactly: one [set_input] per input, at the positions 0, 1, 2, ... in
    order, then one [execute], then one [get_outputs]. *)
Theorem execute_when_cached (name : string) (input : list EValue)
    (s : State) (h : MethodHolder) :
  methods_ (module s) !! name = Some h ->
  only_method_events name s (final_state (execute name input s)) /\
  only_cache_changes s (final_state (execute name input s)) /\
  others_untouched name s (final_state (execute name input s)) /\
  (forall outputs s',
     execute name input s = Returns (Value outputs) s' ->
     exists n, trace s' = trace s ++ execute_events name input n).
Proof.
  intros Hh.
  assert (load_method name s = Returns Ok s) as Hl.
  { apply load_method_when_loaded. unfold is_method_loaded. by rewrite Hh. }
  pose proof (execute_after_load name input s s Hl) as Hex.
  assert (forall R : State -> State -> Prop,
            Reflexive R -> Transitive R ->
            (forall A (f : Method -> World -> A * Method * World)
                    (ev : A -> Event),
               (forall a, method_event name (ev a) = true) ->
               always R (call_method name f ev)) ->
            R s (final_state (execute name input s))) as Hall.
  { intros R HR HT Hcall. rewrite Hex.
    assert (always R
      (bind (bind_inputs name input 0)
         (fun e => match e with
                   | Err c => ret (Failure c)
                   | Ok => run_and_collect name
                   end))) as Ha.
    { repeat first
        [ by apply one_method_bind_inputs
        | by apply one_method_run_and_collect
        | always_step ]. }
    apply Ha. }
  split; [|split; [|split]].
  - apply Hall; [apply _|apply _|].
    apply only_method_events_call_method.
  - apply Hall; [apply _|apply _|].
    intros. apply only_cache_changes_call_method.
  - apply Hall; [apply _|apply _|].
    intros. apply call_method_others.
  - intros outputs s' He.
    destruct (execute_value_inv name input s outputs s' He)
      as (s1 & s2 & s3 & n & Hl1 & _ & Hb & Hrun & Ht).
    assert (s1 = s) as -> by congruence.
    apply call_method_inv in Hrun as (h2 & meth & w & _ & _ & ->).
    exists n. rewrite Ht. simpl. rewrite Hb. unfold execute_events.
    by rewrite <- !app_assoc.
Qed.

(** ** What happens to an unknown method *)

(** X9. [execute] on a name the program has no metadata for returns the
    error of the metadata lookup, in the state that lookup left: no method
    is called, no holder is put in the cache, and [isMethodLoaded(name)] is
    still false. *)
Theorem execute_unknown_method (name : string) (input : list EValue)
    (s s1 : State) (p : ProgramPtr) (c : ErrorCode) :
  is_method_loaded name (module s) = false ->
  load default_verification s = Returns Ok s1 ->
  program_ (module s1) = Some p ->
  Program_method_meta (program_object p) name = Failure c ->
  execute name input s
  = Returns (Failure c) (logged (Call_method_meta name (Failure c)) s1) /\
  methods_ (module s1) = methods_ (module s) /\
  is_method_loaded name (module s1) = false.
Proof.
  intros Hl Hload Hp Hmeta.
  pose proof (same_methods_load default_verification s) as Hs.
  rewrite Hload in Hs. simpl in Hs.
  split; [|split; [done|]].
  - assert (load_method name s
            = Returns (Err c) (logged (Call_method_meta name (Failure c)) s1))
      as Hlm.
    { unfold load_method, bind at 1, get_module. rewrite Hl.
      rewrite (bind_eq _ _ _ _ _ Hload).
      unfold deref_program, bind at 1 2, get_module. rewrite Hp. simpl.
      unfold call_pure, bind, log, ret. simpl. by rewrite Hmeta. }
    unfold execute. by rewrite (bind_eq _ _ _ _ _ Hlm).
  - unfold is_method_loaded in *. by rewrite Hs.
Qed.

(** ** Where the errors of [load_method] come from *)

Lemma materialize_inv (p : Program) (name : string) (meta : MethodMeta)
    (s : State) (e : Error) (s' : State) :
  materialize p name meta s = Returns e s' ->
  exists bs sb,
    realize_plan name meta
      (Z.to_nat (MethodMeta_num_memory_planned_buffers meta)) 0 [] [] s
    = Returns bs sb /\
    match e with
    | Err c =>
        exists mm t,
          trace s'
          = trace sb ++ [Call_Program_load_method name mm t (Failure c)]
    | Ok => True
    end.
Proof.
  unfold materialize.
  intros (bs & sb & Hplan & H)%bind_returns. exists bs, sb. split; [done|].
  unfold bind at 1, get_module in H. unfold bind at 1, call_world in H.
  destruct (Program_load_method _ _ _ _ _ _ _) as [[meth|c] w]; simpl in H.
  - by apply bind_returns in H as (u & s2 & _ & [= <- <-]).
  - injection H as <- <-. simpl. eauto.
Qed.

(** X10. An error that [loadMethod(name)] returns is the error of [load()],
    or of the metadata lookup, or of [Program::load_method], each time of
    the last collaborator called.  The loop over the memory plan never
    returns an error: a size that cannot be read, a size that cannot be
    allocated end the call in another way. *)
Theorem load_method_error_provenance (name : string) (s : State)
    (c : ErrorCode) (s1 : State) :
  load_method name s = Returns (Err c) s1 ->
  load default_verification s = Returns (Err c) s1 \/
  (exists tr, trace s1 = tr ++ [Call_method_meta name (Failure c)]) \/
  (exists tr mm t,
     trace s1 = tr ++ [Call_Program_load_method name mm t (Failure c)]).
Proof.
  unfold load_method. unfold bind at 1, get_module.
  destruct (is_method_loaded name (module s)); [done|].
  intros ([|c1] & s2 & Hload & H)%bind_returns.
  2:{ injection H as <- <-. by left. }
  right.
  apply bind_returns in H as (p & s3 & Hp & H).
  apply bind_returns in H as (r & s4 & Hr & H).
  unfold call_pure, bind, log, ret in Hr. simpl in Hr.
  injection Hr as <- <-.
  destruct (Program_method_meta p name) as [meta|c2] eqn:Hmeta.
  - right. apply materialize_inv in H as (bs & sb & _ & mm & t & Hs1).
    by exists (trace sb), mm, t.
  - left. injection H as <- <-. simpl. eauto.
Qed.

(** X11. A memory plan with an entry whose size cannot be read, or is
    negative, is never realized: [loadMethod] neither returns [Ok] nor an
    error, it ends by an exception or a failed check, before
    [Program::load_method] could be called, and the cache is as before. *)
Theorem load_method_bad_plan (name : string) (s s1 : State)
    (p : ProgramPtr) (meta : MethodMeta) (i : Z) :
  is_method_loaded name (module s) = false ->
  load default_verification s = Returns Ok s1 ->
  program_ (module s1) = Some p ->
  Program_method_meta (program_object p) name = Value meta ->
  0 <= i < MethodMeta_num_memory_planned_buffers meta ->
  (forall z, MethodMeta_memory_planned_buffer_size meta i = Value z ->
             - 2 ^ 63 <= z < 0) ->
  exists h s',
    load_method name s = Halts h s' /\
    methods_ (module s') = methods_ (module s) /\
    is_method_loaded name (module s') = false.
Proof.
  intros Hl Hload Hp Hmeta Hi Hbad.
  assert (load_method name s
          = materialize (program_object p) name meta
              (logged (Call_method_meta name (Value meta)) s1)) as Heq.
  { unfold load_method. unfold bind at 1, get_module. rewrite Hl.
    rewrite (bind_eq _ _ _ _ _ Hload).
    unfold deref_program, bind at 1 2, get_module. rewrite Hp. simpl.
    unfold call_pure, bind at 1 2, log, ret. simpl. by rewrite Hmeta. }
  pose proof (load_method_fails_unchanged name s) as Hun.
  destruct (load_method name s) as [e s'|h s'] eqn:Hlm.
  - exfalso. symmetry in Heq.
    apply materialize_inv in Heq as (bs & sb & Hplan & _).
    apply realize_plan_spec in Hplan as (sizes & Hlen & _ & _ & Hsizes).
    destruct (sizes !! Z.to_nat i) as [z|] eqn:Hz.
    2:{ apply lookup_ge_None in Hz. lia. }
    destruct (Hsizes _ _ Hz) as [Hrange (size & Hv & ->)].
    rewrite Z.add_0_l, Z2Nat.id in Hv by lia.
    specialize (Hbad size Hv).
    pose proof (to_size_t_int64 size) as Hint.
    rewrite Hint in Hrange by lia. lia.
  - exists h, s'. split; [done|]. simpl in Hun. done.
Qed.

(** ** [method_names] and a name that cannot be read *)

Lemma collect_method_names_aborts p n index result s i :
  index + Z.of_nat n <= INT_MAX ->
  index <= i < index + Z.of_nat n ->
  Result_ok (Program_get_method_name p i) = false ->
  exists s',
    collect_method_names p n index result s = Halts Abort s' /\
    module s' = module s.
Proof.
  revert index result s. induction n as [|n IH]; intros index result s; simpl.
  - lia.
  - intros Hmax Hi Hfail.
    unfold call_pure, bind at 1 2 3, log, ret. simpl.
    destruct (Program_get_method_name p index) as [name|c] eqn:Hname; simpl.
    + unfold bind at 1, int_incr. case_decide as Hm; simpl; [lia|].
      destruct (decide (i = index)) as [->|Hne].
      { by rewrite Hname in Hfail. }
      destruct (IH (index + 1) (result ∪ {[name]})
                  (mkState (module s) (world s)
                     (trace s ++ [Call_get_method_name index (Value name)])))
        as (s' & -> & Hs'); [lia|lia|done|]. eauto.
    + eauto.
Qed.

(** X12. [methodNames()] has no error of its own: when [load()] succeeded
    and the program cannot give the name at one of the indices below its
    method count, the call does not return an error, the failed check of
    [Result::get()] ends the process. *)
Theorem method_names_aborts (s s1 : State) (p : ProgramPtr) (i : Z) :
  load default_verification s = Returns Ok s1 ->
  program_ (module s1) = Some p ->
  Program_num_methods (program_object p) <= INT_MAX ->
  0 <= i < Program_num_methods (program_object p) ->
  Result_ok (Program_get_method_name (program_object p) i) = false ->
  exists s', method_names s = Halts Abort s' /\ module s' = module s1.
Proof.
  intros Hload Hp Hmax Hi Hfail. unfold method_names.
  rewrite (bind_eq _ _ _ _ _ Hload).
  unfold deref_program, bind at 1 2, get_module. rewrite Hp. simpl.
  destruct (collect_method_names_aborts (program_object p)
              (Z.to_nat (Program_num_methods (program_object p))) 0 ∅ s1 i)
    as (s' & Hc & Hs'); [lia|lia|done|].
  exists s'. unfold bind. by rewrite Hc.
Qed.

(** ** One name at a time *)

(** X13. [loadMethod(name)], [methodMeta(name)] and [execute(name, ...)]
    leave the cache entries of all other names as they were, whether they
    succeed or not. *)
Theorem other_names_untouched (name : string) (input : list EValue)
    (s : State) (n : string) :
  n ≠ name ->
  methods_ (module (final_state (load_method name s))) !! n
  = methods_ (module s) !! n /\
  methods_ (module (final_state (method_meta name s))) !! n
  = methods_ (module s) !! n /\
  methods_ (module (final_state (execute name input s))) !! n
  = methods_ (module s) !! n.
Proof.
  intros Hn. split; [|split].
  - by apply load_method_others.
  - assert (always (others_untouched name) (method_meta name)) as Ha.
    { unfold method_meta.
      repeat first [apply load_method_others | always_step]. }
    by apply Ha.
  - assert (always (others_untouched name) (execute name input)) as Ha.
    { unfold execute.
      repeat first
        [ apply load_method_others
        | apply (one_method_bind_inputs name (others_untouched name));
          intros; apply call_method_others
        | apply (one_method_run_and_collect name (others_untouched name));
          intros; apply call_method_others
        | always_step ]. }
    by apply Ha.
Qed.

(** ** [methods_.at] is safe, and [execute] on a cached method returns *)

Lemma bind_not_out_of_range {A B} (c : M A) (k : A -> M B) :
  (forall s s', c s ≠ Halts (Exception out_of_range) s') ->
  (forall a s s', k a s ≠ Halts (Exception out_of_range) s') ->
  forall s s', bind c k s ≠ Halts (Exception out_of_range) s'.
Proof.
  intros Hc Hk s s'. unfold bind. specialize (Hc s).
  destruct (c s) as [a s1|h s1]; [apply Hk|]. intros [= -> ->].
  by apply (Hc s').
Qed.

Lemma new_planned_buffer_not_out_of_range name size s s' :
  new_planned_buffer name size s ≠ Halts (Exception out_of_range) s'.
Proof.
  unfold new_planned_buffer, bind, call_world, halt, ret.
  repeat case_decide; try done.
  destruct (operator_new (to_size_t size) (world s)) as [[] w]; done.
Qed.

Lemma realize_plan_not_out_of_range name meta n index buffers spans s s' :
  realize_plan name meta n index buffers spans s
  ≠ Halts (Exception out_of_range) s'.
Proof.
  revert index buffers spans s s'.
  induction n as [|n IH]; intros index buffers spans s s'; simpl; [done|].
  apply bind_not_out_of_range; [done|]. intros r.
  apply bind_not_out_of_range; [by destruct r|]. intros size.
  apply bind_not_out_of_range;
    [intros; apply new_planned_buffer_not_out_of_range|]. intros buf.
  apply bind_not_out_of_range.
  - intros s0 s0'. unfold int_incr. by case_decide.
  - intros index'. apply IH.
Qed.

Lemma load_method_not_out_of_range name s s' :
  load_method name s ≠ Halts (Exception out_of_range) s'.
Proof.
  revert s s'. unfold load_method.
  apply bind_not_out_of_range; [done|]. intros m.
  destruct (is_method_loaded name m); [done|].
  apply bind_not_out_of_range.
  { intros s s'. destruct (load_returns default_verification s)
      as (e & s1 & ->). done. }
  intros [|c]; [|done].
  apply bind_not_out_of_range.
  { intros s s'. unfold deref_program, bind, get_module.
    by destruct (program_ (module s)). }
  intros p. apply bind_not_out_of_range; [done|]. intros [meta|c]; [|done].
  unfold materialize.
  apply bind_not_out_of_range;
    [intros; apply realize_plan_not_out_of_range|]. intros bs.
  apply bind_not_out_of_range; [done|]. intros m'.
  apply bind_not_out_of_range.
  { intros s s'. unfold call_world.
    by destruct (Program_load_method _ _ _ _ _ _ _). }
  intros [meth|c]; [|done].
  apply bind_not_out_of_range; [|done].
  intros s s'. destruct (emplace_holder_returns name
    (mkMethodHolder bs.1 bs.2 (mkHierarchicalAllocator bs.2)
       (mkMemoryManager (memory_allocator_ m')
          (mkHierarchicalAllocator bs.2) (temp_allocator_ m')) meth) s)
    as (s1 & -> & _). done.
Qed.

Lemma call_method_cached {A} name
    (f : Method -> World -> A * Method * World) (ev : A -> Event) s :
  is_Some (methods_ (module s) !! name) ->
  exists a s',
    call_method name f ev s = Returns a s' /\
    is_Some (methods_ (module s') !! name).
Proof.
  intros [h Hh]. unfold call_method. rewrite Hh.
  destruct (f (method h) (world s)) as [[a meth] w].
  eexists _, _. split; [reflexivity|]. simpl. rewrite lookup_insert_eq. eauto.
Qed.

Lemma bind_inputs_cached name input index s :
  is_Some (methods_ (module s) !! name) ->
  match bind_inputs name input index s with
  | Returns _ s' => is_Some (methods_ (module s') !! name)
  | Halts h _ => h = Undefined /\ INT_MAX < index + Z.of_nat (length input)
  end.
Proof.
  revert index s. induction input as [|v rest IH]; intros index s Hc; simpl.
  - done.
  - destruct (call_method_cached name
                (fun meth => Method_set_input meth v index)
                (Call_set_input name v index) s Hc) as (e & s1 & Hcall & Hc1).
    rewrite (bind_eq _ _ _ _ _ Hcall). destruct e as [|c]; [|done].
    unfold bind at 1, int_incr. case_decide as Hi.
    + simpl. split; [done|]. lia.
    + unfold ret at 1. specialize (IH (index + 1) s1 Hc1).
      destruct (bind_inputs name rest (index + 1) s1); [done|].
      destruct IH as [-> ?]. split; [done|]. lia.
Qed.

Lemma run_and_collect_cached name s :
  is_Some (methods_ (module s) !! name) ->
  exists r s', run_and_collect name s = Returns r s'.
Proof.
  intros Hc. unfold run_and_collect.
  destruct (call_method_cached name Method_execute (Call_execute name) s Hc)
    as (e & s1 & Hcall & [h1 Hh1]).
  rewrite (bind_eq _ _ _ _ _ Hcall). destruct e as [|c]; [|eauto].
  rewrite (bind_eq _ _ _ _ _ (methods_at_eq _ _ _ Hh1)).
  destruct (call_method_cached name
              (fun meth => Method_get_outputs meth
                             (Method_outputs_size (method h1)))
              (fun r => Call_get_outputs name
                          (Method_outputs_size (method h1)) r.1)
              s1 (ex_intro _ h1 Hh1)) as (r & s2 & Hget & _).
  rewrite (bind_eq _ _ _ _ _ Hget). destruct (r.1); eauto.
Qed.

(** X15. [methods_.at(name)] never throws: [execute], [methodMeta] and
    [setOutputDataPtr] reach it only after [loadMethod] returned [Ok], and
    then the name is in the cache and stays there.  None of the three ever
    ends with [std::out_of_range]. *)
Theorem at_never_throws (name : string) (input : list EValue)
    (output_tensor : Tensor) (output_index : Z) (s s' : State) :
  execute name input s ≠ Halts (Exception out_of_range) s' /\
  method_meta name s ≠ Halts (Exception out_of_range) s' /\
  set_output_data_ptr output_tensor output_index s
  ≠ Halts (Exception out_of_range) s'.
Proof.
  split; [|split].
  - unfold execute. unfold bind at 1.
    pose proof (load_method_not_out_of_range name s) as Hl.
    destruct (load_method name s) as [[|c] s1|h s1] eqn:Hlm; [|done|].
    2:{ intros [= -> ->]. by apply (Hl s'). }
    destruct (load_method_ok_holder _ _ _ Hlm) as [h Hh].
    rewrite (bind_eq _ _ _ _ _ (methods_at_eq _ _ _ Hh)).
    unfold bind at 1.
    pose proof (bind_inputs_cached name input 0 s1 (ex_intro _ h Hh)) as Hb.
    destruct (bind_inputs name input 0 s1) as [[|c] s2|hh s2]; [|done|].
    + destruct (run_and_collect_cached name s2 Hb) as (r & s3 & ->). done.
    + destruct Hb as [-> _]. done.
  - unfold method_meta. unfold bind at 1.
    pose proof (load_method_not_out_of_range name s) as Hl.
    destruct (load_method name s) as [[|c] s1|h s1] eqn:Hlm; [|done|].
    2:{ intros [= -> ->]. by apply (Hl s'). }
    destruct (load_method_ok_holder _ _ _ Hlm) as [h Hh].
    by rewrite (bind_eq _ _ _ _ _ (methods_at_eq _ _ _ Hh)).
  - unfold set_output_data_ptr. unfold bind at 1.
    pose proof (load_method_not_out_of_range "forward" s) as Hl.
    destruct (load_method "forward" s) as [[|c] s1|h s1] eqn:Hlm; [|done|].
    2:{ intros [= -> ->]. by apply (Hl s'). }
    destruct (load_method_ok_holder _ _ _ Hlm) as [h Hh].
    rewrite (bind_eq _ _ _ _ _ (methods_at_eq _ _ _ Hh)).
    destruct (call_method_cached "forward"
                (fun meth =>
                   Method_set_output_data_ptr meth
                     (Tensor_mutable_data_ptr output_tensor)
                     (Tensor_nbytes output_tensor) output_index)
                (Call_set_output_data_ptr "forward"
                   (Tensor_mutable_data_ptr output_tensor)
                   (Tensor_nbytes output_tensor) output_index)
                s1 (ex_intro _ h Hh)) as (e & s2 & -> & _).
    done.
Qed.

(** ** The method names do not change *)

Lemma method_names_value (s : State) (names : gset string) (s' : State) :
  method_names s = Returns (Value names) s' ->
  exists p,
    program_ (module s') = Some p /\
    forall x, x ∈ names <->
      exists i, 0 <= i < Program_num_methods (program_object p) /\
                Program_get_method_name (program_object p) i = Value x.
Proof.
  unfold method_names. unfold bind at 1.
  destruct (load default_verification s) as [e s1|h s1] eqn:Hload; [|done].
  destruct e as [|c1]; [|done].
  apply load_ok_program in Hload as [p Hp].
  unfold deref_program, bind at 1 2, get_module. rewrite Hp. simpl.
  intros (r & s3 & Hr & [= <- <-])%bind_returns.
  apply collect_method_names_spec in Hr as [Hm Hx].
  exists p. rewrite Hm. split; [done|].
  intros x. rewrite Hx. split.
  - intros [?|(i & Hi & ?)]; [set_solver|]. exists i. split; [lia|done].
  - intros (i & Hi & ?). right. exists i. split; [lia|done].
Qed.

(** X17. The set of method names is fixed once it has been given: whatever
    is called on the module after [methodNames()] returned a set, a later
    [methodNames()] that returns a set returns the same one. *)
Theorem method_names_stable (s s1 s2 : State) (cs : list ApiCall)
    (names1 names2 : gset string) :
  method_names s = Returns (Value names1) s1 ->
  method_names (run_calls cs s1) = Returns (Value names2) s2 ->
  names1 = names2.
Proof.
  intros H1 H2.
  apply method_names_value in H1 as (p1 & Hp1 & Hx1).
  pose proof (keeps_method_names (run_calls cs s1)) as Hk.
  rewrite H2 in Hk. simpl in Hk.
  apply method_names_value in H2 as (p2 & Hp2 & Hx2).
  pose proof (keeps_program _ _ (keeps_run_calls cs s1) p1 Hp1) as Hp.
  pose proof (keeps_program _ _ Hk p1 Hp) as Hp'.
  assert (p2 = p1) as -> by congruence.
  apply set_eq. intros x. by rewrite Hx1, Hx2.
Qed.

End Proofs.

(** * Properties of the variance kernel *)

Section VarProofs.

Import OpVar.

Variables Tensor CTYPE_IN CTYPE_OUT : Type.
Variable NAN : CTYPE_OUT.
Variable cast : CTYPE_IN -> CTYPE_OUT.
Variable of_size_t : Z -> CTYPE_OUT.
Variables add sub mul div : CTYPE_OUT -> CTYPE_OUT -> CTYPE_OUT.
Variable check_preconditions : Tensor -> DimList -> bool -> Tensor -> bool.
Variable resize_reduction_out :
  Tensor -> DimList -> bool -> Tensor -> Error * Tensor.
Variable is_float_type : Tensor -> bool.
Variable numel : Tensor -> Z.
Variable get_reduced_dim_product : Tensor -> DimList -> Z.
Variable map_reduce_over_dim_list :
  (CTYPE_IN -> CTYPE_OUT) -> (CTYPE_OUT -> CTYPE_OUT -> CTYPE_OUT) ->
  Tensor -> DimList -> Z -> CTYPE_OUT.

Lemma denominator_of_zero (unbiased : bool) (num : Z) :
  0 <= num < SIZE_MODULUS ->
  (num = 0 \/ denominator_of unbiased num = 0) <->
  (num = 0 \/ (unbiased = true /\ num = 1)).
Proof.
  unfold denominator_of, to_size_t, SIZE_MODULUS. intros Hnum.
  destruct unbiased.
  - split; intros [H|H]; try (by left).
    + destruct (decide (num = 0)) as [?|Hne]; [by left|].
      right. split; [done|]. rewrite Z.mod_small in H by lia. lia.
    + right. destruct H as [_ ->]. done.
  - split; intros [H|H]; auto. by destruct H.
Qed.

Lemma positions_length (n : Z) : length (positions n) = Z.to_nat n.
Proof. unfold positions. by rewrite length_fmap, length_seq. Qed.

(** C10. In [var_out] the two divisions are guarded.  Let [num] be the
    number of reduced elements.  (1) When [num] is zero, or [unbiased] is
    set and [num] is one, so that the denominator is zero, no division is
    made and every element of the output is NaN.  (2) Otherwise [num] and
    the denominator are not zero, and the divisions made are, for each
    output element, one by [num] and one by the denominator: no divisor is
    zero. *)
Theorem var_out_divisions_guarded (inp : Tensor) (dim_list : DimList)
    (unbiased keepdim : bool) (out : Tensor)
    (out_data : list CTYPE_OUT) (divisions : list (Division CTYPE_OUT)) :
  var_out Tensor CTYPE_IN CTYPE_OUT NAN cast of_size_t add sub mul div
    check_preconditions resize_reduction_out is_float_type numel
    get_reduced_dim_product map_reduce_over_dim_list
    inp dim_list unbiased keepdim out
  = Some (out_data, divisions) ->
  let num := to_size_t (get_reduced_dim_product inp dim_list) in
  let denominator := denominator_of unbiased num in
  exists out',
    resize_reduction_out inp dim_list keepdim out = (Ok, out') /\
    length out_data = Z.to_nat (to_size_t (numel out')) /\
    (num = 0 \/ (unbiased = true /\ num = 1) ->
     divisions = [] /\ Forall (fun x => x = NAN) out_data) /\
    (~ (num = 0 \/ (unbiased = true /\ num = 1)) ->
     num ≠ 0 /\ denominator ≠ 0 /\
     Forall (fun d => divisor d ≠ 0) divisions /\
     (divisor <$> divisions)
     = concat (replicate (length out_data) [num; denominator])).
Proof.
  intros Hv num denominator. unfold var_out in Hv.
  destruct (check_preconditions inp dim_list keepdim out); [|done].
  simpl in Hv.
  destruct (resize_reduction_out inp dim_list keepdim out) as [[|c] out'];
    [|done].
  destruct (is_float_type inp && is_float_type out'); [|done].
  injection Hv as Hv. exists out'. split; [done|].
  pose proof (to_size_t_range (get_reduced_dim_product inp dim_list)) as Hnum.
  pose proof (denominator_of_zero unbiased num Hnum) as Hguard.
  unfold var_kernel in Hv. fold num in Hv. fold denominator in Hv.
  destruct ((num =? 0) || (denominator =? 0)) eqn:Hg.
  - apply orb_true_iff in Hg. rewrite !Z.eqb_eq in Hg.
    injection Hv as <- <-.
    split; [by rewrite length_fmap, positions_length|].
    split; [|intros Hn; exfalso; apply Hn, Hguard, Hg].
    intros _. split; [done|]. apply Forall_fmap, Forall_true. done.
  - apply orb_false_iff in Hg. rewrite !Z.eqb_neq in Hg.
    destruct Hg as [Hn Hd]. injection Hv as <- <-.
    split; [by rewrite !length_fmap, positions_length|].
    split; [intros Hz; apply Hguard in Hz; tauto|].
    intros _. split; [done|]. split; [done|].
    rewrite !length_fmap.
    generalize (positions (to_size_t (numel out'))). intros l.
    split.
    + induction l as [|x l IH]; simpl; [constructor|].
      repeat constructor; done.
    + induction l as [|x l IH]; simpl; [done|]. do 2 f_equal. exact IH.
Qed.

End VarProofs.


(** * The theorems at work on the small runtime *)

Import Demo.

Lemma load_idempotent_witness :
  constructed fresh /\
  load Minimal fresh = Returns Ok parsed /\
  (accessors_made
     (run_calls [Do_load Minimal; Do_load InternalConsistency;
                 Do_execute "forward" [VInt 1]; Do_load Minimal] fresh)
   <= 1)%nat /\
  exists s2,
    load InternalConsistency (run_calls [Do_execute "forward" [VInt 1]] parsed)
    = Returns Ok s2.
Proof.
  assert (Hc : constructed fresh).
  { left. by exists "model.pte", File, None, world0. }
  assert (Hl : load Minimal fresh = Returns Ok parsed).
  { vm_compute. reflexivity. }
  destruct (load_idempotent (RT := runtime)) as (_ & Hcount & Hlater).
  split; [exact Hc|]. split; [exact Hl|]. split.
  - exact (proj1 (Hcount _ fresh Hc)).
  - destruct (Hlater Minimal fresh parsed
                [Do_execute (RT := runtime) "forward" [VInt 1]]
                InternalConsistency Hl) as (s2 & Hs2 & _).
    exists s2. exact Hs2.
Defined.

Lemma load_method_idempotent_witness :
  load_method "forward" fresh = Returns Ok loaded /\
  is_method_loaded "forward" (module loaded) = true /\
  load_method "forward" (run_calls [Do_execute "identity" []] loaded)
  = Returns Ok (run_calls [Do_execute "identity" []] loaded) /\
  (holders_inserted "forward"
     (run_calls [Do_load_method "forward"; Do_load_method "forward"] fresh)
   <= 1)%nat.
Proof.
  assert (Hl : load_method "forward" fresh = Returns Ok loaded).
  { vm_compute. reflexivity. }
  destruct (load_method_idempotent (RT := runtime))
    as (_ & Hcount & Hlater).
  split; [exact Hl|]. split; [vm_compute; reflexivity|]. split.
  - exact (Hlater "forward" fresh loaded
             [Do_execute (RT := runtime) "identity" []] Hl).
  - apply Hcount. left. by exists "model.pte", File, None, world0.
Defined.


(** A method of arity 2 given one input: [execute] returns outputs when the
    method runs with what is bound, and the error of the run, not of a
    bind, when the method refuses to run. *)
Lemma execute_fewer_inputs_no_binding_error :
  md_inputs forward = 2%nat /\
  md_inputs strict = 2%nat /\
  is_method_loaded "forward" (module loaded) = true /\
  (exists s',
     execute "forward" [VInt 1] loaded = Returns (Value [VInt 1; VNone]) s') /\
  (forall s',
     execute "forward" [VInt 1] loaded
     ≠ Returns (Failure InputBindingError) s') /\
  (exists s',
     execute "strict" [VInt 1] fresh = Returns (Failure ExecutionError) s').
Proof.
  split; [reflexivity|]. split; [reflexivity|]. split; [reflexivity|].
  assert (exists s' : State,
            execute "forward" [VInt 1] loaded
            = Returns (Value [VInt 1; VNone]) s') as [s' Hs'].
  { eexists. vm_compute. reflexivity. }
  split; [by exists s'|]. split.
  - intros s''. rewrite Hs'. discriminate.
  - eexists. vm_compute. reflexivity.
Qed.

Lemma two_inputs_rejected : set_input_rejects_beyond 2 two_inputs.
Proof.
  intros meth v index w Ha. unfold two_inputs in *. simpl.
  unfold set_input. rewrite Ha.
  case_decide as Hi; simpl; (split; [done|]); intros; [lia|done].
Qed.

Lemma two_inputs_binding : binding_failures two_inputs.
Proof.
  intros meth v index w Ha. unfold two_inputs in *. simpl.
  unfold set_input. rewrite Ha. by case_decide.
Qed.

Lemma execute_input_arity_witness :
  0 <= 2 <= INT_MAX /\
  load_method "forward" fresh = Returns Ok loaded /\
  methods_ (module loaded) !! "forward" = Some forward_holder /\
  (exists i v s2,
     0 <= i <= 2 /\
     [VInt 1; VInt 2; VInt 3] !! Z.to_nat i = Some v /\
     execute "forward" [VInt 1; VInt 2; VInt 3] fresh
     = Returns (Failure InputBindingError) s2 /\
     (exists tr,
        trace s2
        = tr ++ [Call_set_input "forward" v i (Err InputBindingError)]) /\
     count_events runs_method (trace s2)
     = count_events runs_method (trace loaded)) /\
  (exists s2,
     bind_inputs "forward" [VInt 1] 0 loaded = Returns Ok s2 /\
     trace s2 = trace loaded ++ bind_events "forward" [VInt 1] 0 /\
     execute "forward" [VInt 1] fresh = run_and_collect "forward" s2 /\
     count_events runs_method
       (trace (final_state (execute "forward" [VInt 1] fresh)))
     = S (count_events runs_method (trace s2))).
Proof.
  assert (HK : 0 <= 2 <= INT_MAX) by (unfold INT_MAX; lia).
  assert (Hl : load_method "forward" fresh = Returns Ok loaded).
  { vm_compute. reflexivity. }
  assert (Hh : methods_ (module loaded) !! "forward" = Some forward_holder).
  { vm_compute. reflexivity. }
  assert (Hb : exists s2,
             bind_inputs "forward" [VInt 1] 0 loaded = Returns Ok s2).
  { eexists. vm_compute. reflexivity. }
  split; [exact HK|]. split; [exact Hl|]. split; [exact Hh|]. split.
  - destruct (execute_input_arity (RT := runtime) 2 two_inputs "forward"
                [VInt 1; VInt 2; VInt 3] fresh loaded forward_holder
                HK two_inputs_rejected Hl Hh eq_refl) as [Hmore _].
    destruct Hmore as (c & i & v & s2 & Hi & Hv & Hex & Htr & Hcount & Hcode);
      [simpl; lia|].
    pose proof (Hcode two_inputs_binding) as Hc. subst c.
    exists i, v, s2.
    split; [exact Hi|]. split; [exact Hv|]. split; [exact Hex|].
    split; [exact Htr|exact Hcount].
  - destruct Hb as [s2 Hb].
    destruct (execute_input_arity (RT := runtime) 2 two_inputs "forward"
                [VInt 1] fresh loaded forward_holder
                HK two_inputs_rejected Hl Hh eq_refl) as [_ Hfew].
    destruct Hfew as [_ Hok]; [simpl; lia|].
    exists s2. split; [exact Hb|]. exact (Hok s2 Hb).
Defined.

Lemma load_method_failure_leaves_no_entry_witness :
  let failed := final_state (load_method "forward" fresh_missing) in
  let repaired := final_state (outside install failed) in
  load_method "forward" fresh_missing
  = Returns (Err AccessorConstructionError) failed /\
  is_method_loaded "forward" (module failed) = false /\
  is_method_loaded "forward" (module repaired) = false /\
  exists s2 h,
    load_method "forward" repaired = Returns Ok s2 /\
    is_method_loaded "forward" (module s2) = true /\
    method h = forward_method /\
    methods_at "forward" s2 = Returns h s2.
Proof.
  intros failed repaired.
  assert (Hf : load_method "forward" fresh_missing
               = Returns (Err AccessorConstructionError) failed).
  { vm_compute. reflexivity. }
  destruct (load_method_failure_leaves_no_entry (RT := runtime))
    as (Herr & _ & _ & Hgood).
  destruct (Herr "forward" fresh_missing AccessorConstructionError failed Hf)
    as [_ Hnot].
  assert (Hr : is_method_loaded "forward" (module repaired) = false).
  { exact Hnot. }
  split; [exact Hf|]. split; [exact Hnot|]. split; [exact Hr|].
  edestruct (Hgood "forward" repaired) as (s2 & h & H1 & H2 & _ & _ & H5 & H6).
  - exact Hr.
  - vm_compute. reflexivity.
  - vm_compute. reflexivity.
  - vm_compute. reflexivity.
  - vm_compute. reflexivity.
  - vm_compute. reflexivity.
  - exists s2, h. split; [exact H1|]. split; [exact H2|].
    split; [exact H5|exact H6].
Defined.

Lemma planned_buffers_follow_plan_witness :
  is_method_loaded "forward" (module fresh) = false /\
  load_method "forward" fresh = Returns Ok loaded /\
  md_plan forward = [128; 256] /\
  exists h,
    methods_ (module loaded) !! "forward" = Some h /\
    length (planned_buffers h) = 2%nat /\
    hierarchical_spans (planned_memory h)
    = spans_of_buffers (planned_buffers h).
Proof.
  assert (Hn : is_method_loaded "forward" (module fresh) = false).
  { vm_compute. reflexivity. }
  assert (Hl : load_method "forward" fresh = Returns Ok loaded).
  { vm_compute. reflexivity. }
  split; [exact Hn|]. split; [exact Hl|]. split; [reflexivity|].
  destruct (planned_buffers_follow_plan (RT := runtime) "forward" fresh loaded
              Hn Hl)
    as (p & meta & h & tr & Hp & Hmeta & Hh & Hlen & _ & _ & Hsp & _).
  exists h. split; [exact Hh|]. split; [|exact Hsp].
  rewrite Hlen. vm_compute in Hp. injection Hp as <-.
  vm_compute in Hmeta. injection Hmeta as <-. reflexivity.
Defined.

Lemma execute_outputs_witness :
  let s' := final_state (execute "identity" [VTensor [1; 2; 3]] fresh) in
  execute "identity" [VTensor [1; 2; 3]] fresh
  = Returns (Value [VTensor [1; 2; 3]]) s' /\
  exists h,
    length [VTensor [1; 2; 3]] = Z.to_nat (Method_outputs_size (method h)).
Proof.
  intros s'.
  assert (He : execute "identity" [VTensor [1; 2; 3]] fresh
               = Returns (Value [VTensor [1; 2; 3]]) s').
  { vm_compute. reflexivity. }
  split; [exact He|].
  destruct (execute_outputs (RT := runtime) "identity" [VTensor [1; 2; 3]]
              fresh [VTensor [1; 2; 3]] s' He)
    as (s2 & s3 & h & written & meth & w & _ & _ & _ & _ & _ & Hlen & _).
  exists h. exact Hlen.
Defined.

Lemma method_names_spec_witness :
  load Minimal fresh = Returns Ok parsed /\
  exists names s',
    method_names fresh = Returns (Value names) s' /\
    ("identity" ∈ names <->
     exists i, 0 <= i < 3 /\ get_method_name model i = Value "identity").
Proof.
  assert (Hl : load Minimal fresh = Returns Ok parsed).
  { vm_compute. reflexivity. }
  split; [exact Hl|].
  destruct (method_names_spec (RT := runtime))
    as (_ & _ & _ & _ & Hset & Htotal).
  destruct (Htotal fresh parsed (mkProgramPtr (RT := runtime) model (Some (Some model))) Hl)
    as (names & s' & Hn).
  - vm_compute. reflexivity.
  - vm_compute. discriminate.
  - intros i Hi. simpl in Hi.
    assert (i = 0 \/ i = 1 \/ i = 2) as [->|[->| ->]] by lia; reflexivity.
  - exists names, s'. split; [exact Hn|].
    destruct (Hset fresh names s' Hn) as (p & Hp & Hx).
    assert (p = mkProgramPtr (RT := runtime) model (Some (Some model)))
      as ->.
    { clear -Hn Hp. vm_compute in Hn. injection Hn as _ <-.
      vm_compute in Hp. by injection Hp as <-. }
    exact (Hx "identity").
Defined.

Lemma set_output_data_ptr_forward_witness :
  load_method "forward" fresh = Returns Ok loaded /\
  exists h meth s',
    methods_ (module loaded) !! "forward" = Some h /\
    set_output_data_ptr (mkDTensor 7 64) 0 fresh = Returns Ok s' /\
    cached_method "forward" s' = Some meth /\
    dm_output_ptrs meth = [Some (7%nat, 64); None].
Proof.
  assert (Hl : load_method "forward" fresh = Returns Ok loaded).
  { vm_compute. reflexivity. }
  split; [exact Hl|].
  destruct (set_output_data_ptr_forward (RT := runtime) (mkDTensor 7 64) 0
              fresh) as (_ & _ & Hok & _).
  destruct (Hok loaded Hl) as (h & Hh & Hcall).
  assert (h = forward_holder) as ->.
  { vm_compute in Hh. by injection Hh as <-. }
  pose (meth :=
    mkDMethod forward forward_spans [None; None] [VNone; VNone]
      [Some (7%nat, 64); None]).
  destruct (Hcall Ok meth (world loaded)) as [Heq Hc];
    [vm_compute; reflexivity|].
  rewrite Heq in Hc.
  eexists forward_holder, meth, _. split; [exact Hh|].
  split; [exact Heq|]. split; [exact Hc|reflexivity].
Defined.

Lemma var_out_divisions_guarded_witness :
  OpVar.demo_var_out [1; 2; 3; 4] true
  = Some ([Some (327680, 196608)],
          [OpVar.mkDivision (Some (10, 1)) 4;
           OpVar.mkDivision (Some (327680, 65536)) 3]) /\
  OpVar.demo_var_out [5] true = Some ([None], []) /\
  4 ≠ 0 /\ OpVar.denominator_of true 4 ≠ 0 /\
  Forall (fun x : OpVar.Q2 => x = None) [None].
Proof.
  assert (H4 : OpVar.demo_var_out [1; 2; 3; 4] true
               = Some ([Some (327680, 196608)],
                       [OpVar.mkDivision (Some (10, 1)) 4;
                        OpVar.mkDivision (Some (327680, 65536)) 3])).
  { vm_compute. reflexivity. }
  assert (H1 : OpVar.demo_var_out [5] true = Some ([None], [])).
  { vm_compute. reflexivity. }
  split; [exact H4|]. split; [exact H1|].
  destruct (var_out_divisions_guarded _ _ _ _ _ _ _ _ _ _ _ _ _ _ _ _
              _ _ _ _ _ _ _ H4) as (out4 & _ & _ & _ & Hdiv).
  destruct (var_out_divisions_guarded _ _ _ _ _ _ _ _ _ _ _ _ _ _ _ _
              _ _ _ _ _ _ _ H1) as (out1 & _ & _ & Hnan & _).
  destruct Hdiv as (Hn & Hd & _).
  { vm_compute. intros [Hz|[_ Hz]]; discriminate Hz. }
  destruct Hnan as [_ Hall].
  { right. split; reflexivity. }
  split; [exact Hn|]. split; [exact Hd|exact Hall].
Defined.

(** ** Further runs *)

(** A file that does not parse: each [load()] asks for a parse again, the
    data loader is built once and kept, and no program is ever set. *)
Example load_retries_after_failure :
  let s := run_calls [Do_load Minimal; Do_load Minimal]
             (Module_from_file "broken.pte" File None world0) in
  is_loaded (module s) = false /\
  count_events requests_parse (trace s) = 2%nat /\
  count_events requests_accessor (trace s) = 1%nat /\
  accessors_made s = 1%nat /\
  programs_parsed s = 0%nat.
Proof. vm_compute. repeat split. Qed.

(** Too little heap for the planned buffers: [load_method] is left through
    [std::bad_alloc] and nothing is cached. *)
Example load_method_bad_alloc :
  let o := load_method "forward"
             (Module_from_file "model.pte" File None world_small) in
  (exists s', o = Halts (Exception bad_alloc) s') /\
  is_method_loaded "forward" (module (final_state o)) = false /\
  is_loaded (module (final_state o)) = true.
Proof. vm_compute. split; [eexists; reflexivity|]. split; reflexivity. Qed.

(** The plan [128; 256] gives two regions of 128 and 256 bytes. *)
Example planned_regions :
  ((fun h => length <$> planned_buffers h)
     <$> methods_ (module loaded) !! "forward")
  = Some [128%nat; 256%nat] /\
  (planned_spans <$> methods_ (module loaded) !! "forward")
  = Some [mkSpan 0 128; mkSpan 1 256].
Proof. vm_compute. split; reflexivity. Qed.

(** The method names of the program, and a run of "identity". *)
Example identity_run :
  (exists names s',
     method_names fresh = Returns (Value names) s' /\
     names = {[ "forward"; "strict"; "identity" ]}) /\
  (exists s',
     execute "identity" [VTensor [1; 2; 3]] fresh
     = Returns (Value [VTensor [1; 2; 3]]) s').
Proof.
  split.
  - eexists _, _. split; [vm_compute; reflexivity|].
    apply set_eq. intros x. vm_compute. set_solver.
  - eexists. vm_compute. reflexivity.
Qed.

(** * The further theorems at work *)

Lemma storage_quiet_once_loaded_witness :
  let cs := [Do_load (RT := runtime) Minimal; Do_method_names;
             Do_execute "identity" [VInt 1]] in
  is_loaded (module Faulty.fresh_from_program) = true /\
  program_ (module (run_calls cs Faulty.fresh_from_program))
  = program_ (module Faulty.fresh_from_program) /\
  count_events requests_parse (trace (run_calls cs Faulty.fresh_from_program))
  = 0%nat.
Proof.
  intros cs.
  assert (Hl : is_loaded (module Faulty.fresh_from_program) = true)
    by reflexivity.
  destruct (storage_quiet_once_loaded (RT := runtime) cs
              Faulty.fresh_from_program Hl) as (Hp & _ & Hr).
  split; [exact Hl|]. split; [exact Hp|]. rewrite Hr. reflexivity.
Defined.

Lemma loader_never_requested_again_witness :
  let cs := [Do_load (RT := runtime) Minimal; Do_load_method "forward"] in
  is_Some (data_loader_ (module Faulty.fresh_injected)) /\
  count_events requests_accessor (trace (run_calls cs Faulty.fresh_injected))
  = 0%nat /\
  is_loaded (module (run_calls cs Faulty.fresh_injected)) = true.
Proof.
  intros cs.
  assert (Hd : is_Some (data_loader_ (module Faulty.fresh_injected))).
  { eexists. reflexivity. }
  destruct (loader_never_requested_again (RT := runtime) cs
              Faulty.fresh_injected (or_introl Hd)) as [_ Hc].
  split; [exact Hd|]. split; [rewrite Hc; reflexivity|].
  vm_compute. reflexivity.
Defined.

Lemma holders_are_stable_witness :
  let cs := [Do_execute (RT := runtime) "forward" [VInt 1; VInt 2];
             Do_load_method "identity"] in
  methods_ (module loaded) !! "forward" = Some forward_holder /\
  exists h',
    methods_ (module (run_calls cs loaded)) !! "forward" = Some h' /\
    length <$> planned_buffers h' = [128; 256]%nat /\
    planned_spans h' = planned_spans forward_holder /\
    dm_inputs (method h') = [Some (VInt 1); Some (VInt 2)].
Proof.
  intros cs.
  assert (Hh : methods_ (module loaded) !! "forward" = Some forward_holder).
  { vm_compute. reflexivity. }
  split; [exact Hh|].
  destruct (holders_are_stable (RT := runtime) cs loaded "forward"
              forward_holder Hh) as (h' & Hh' & Hb & Hs & _).
  exists h'. split; [exact Hh'|]. split; [exact Hb|]. split; [exact Hs|].
  vm_compute in Hh'. injection Hh' as <-. reflexivity.
Defined.

Lemma cache_is_well_formed_witness :
  let cs := [Do_load_method (RT := runtime) "forward";
             Do_execute "identity" [VInt 1]] in
  constructed fresh /\
  exists h,
    methods_ (module (run_calls cs fresh)) !! "identity" = Some h /\
    planned_spans h = spans_of_buffers (planned_buffers h) /\
    planned_memory_of (memory_manager h) = planned_memory h.
Proof.
  intros cs.
  assert (Hc : constructed fresh).
  { left. by exists "model.pte", File, None, world0. }
  split; [exact Hc|].
  destruct (cache_is_well_formed (RT := runtime) cs fresh Hc) as [_ Hw].
  assert (exists h, methods_ (module (run_calls cs fresh)) !! "identity"
                    = Some h) as [h Hh].
  { eexists. vm_compute. reflexivity. }
  exists h. destruct (Hw "identity" h Hh) as (H1 & _ & _ & H4 & _).
  split; [exact Hh|]. split; [exact H1|exact H4].
Defined.

Lemma method_meta_spec_witness :
  load_method "forward" fresh = Returns Ok loaded /\
  method_meta "forward" fresh = Returns (Value forward) loaded /\
  method_meta "forward" loaded = Returns (Value forward) loaded.
Proof.
  assert (Hl : load_method "forward" fresh = Returns Ok loaded).
  { vm_compute. reflexivity. }
  assert (Hh : methods_ (module loaded) !! "forward" = Some forward_holder).
  { vm_compute. reflexivity. }
  destruct (method_meta_spec (RT := runtime) "forward" fresh)
    as (_ & Hok & _).
  destruct (method_meta_spec (RT := runtime) "forward" loaded)
    as (_ & _ & Hcached).
  split; [exact Hl|]. split.
  - destruct (Hok loaded Hl) as (h & Hh' & Hm).
    rewrite Hh in Hh'. injection Hh' as <-. exact Hm.
  - exact (Hcached forward_holder Hh).
Defined.

Lemma load_failure_state_witness :
  let s1 := final_state (load Minimal Faulty.fresh_broken) in
  load Minimal Faulty.fresh_broken = Returns (Err ProgramParseError) s1 /\
  program_ (module s1) = None /\
  data_loader_ (module s1) = Some None.
Proof.
  intros s1.
  assert (Hl : load Minimal Faulty.fresh_broken
               = Returns (Err ProgramParseError) s1).
  { vm_compute. reflexivity. }
  destruct (load_failure_state (RT := runtime) Minimal Faulty.fresh_broken
              ProgramParseError s1 Hl) as (Hp & _ & _).
  split; [exact Hl|]. split; [exact Hp|]. reflexivity.
Defined.

Lemma load_success_state_witness :
  is_loaded (module fresh) = false /\
  load Minimal fresh = Returns Ok parsed /\
  program_ (module parsed)
  = Some (mkProgramPtr (RT := runtime) model (Some (Some model))) /\
  data_loader_ (module parsed) = None.
Proof.
  assert (Hn : is_loaded (module fresh) = false) by reflexivity.
  assert (Hl : load Minimal fresh = Returns Ok parsed).
  { vm_compute. reflexivity. }
  destruct (load_success_state (RT := runtime) Minimal fresh parsed Hn Hl)
    as (d & p & tr & Hp & Hd & _).
  split; [exact Hn|]. split; [exact Hl|]. split; [|exact Hd].
  vm_compute. reflexivity.
Defined.

Lemma execute_when_cached_witness :
  methods_ (module loaded) !! "forward" = Some forward_holder /\
  exists s' n,
    execute "forward" [VInt 1; VInt 2] loaded
    = Returns (Value [VInt 1; VInt 2]) s' /\
    trace s'
    = trace loaded ++ execute_events "forward" [VInt 1; VInt 2] n.
Proof.
  assert (Hh : methods_ (module loaded) !! "forward" = Some forward_holder).
  { vm_compute. reflexivity. }
  split; [exact Hh|].
  destruct (execute_when_cached (RT := runtime) "forward" [VInt 1; VInt 2]
              loaded forward_holder Hh) as (_ & _ & _ & Hev).
  assert (exists s', execute "forward" [VInt 1; VInt 2] loaded
                     = Returns (Value [VInt 1; VInt 2]) s') as [s' Hs'].
  { eexists. vm_compute. reflexivity. }
  destruct (Hev _ _ Hs') as [n Hn].
  exists s', n. split; [exact Hs'|exact Hn].
Defined.

Lemma execute_unknown_method_witness :
  is_method_loaded "nowhere" (module fresh) = false /\
  load Minimal fresh = Returns Ok parsed /\
  execute "nowhere" [VInt 1] fresh
  = Returns (Failure MethodNotFoundError)
      (logged (Call_method_meta "nowhere" (Failure MethodNotFoundError))
         parsed) /\
  is_method_loaded "nowhere" (module parsed) = false.
Proof.
  assert (Hn : is_method_loaded "nowhere" (module fresh) = false)
    by reflexivity.
  assert (Hl : load Minimal fresh = Returns Ok parsed).
  { vm_compute. reflexivity. }
  destruct (execute_unknown_method (RT := runtime) "nowhere" [VInt 1] fresh
              parsed
              (mkProgramPtr (RT := runtime) model (Some (Some model)))
              MethodNotFoundError Hn Hl)
    as (He & _ & Hc); [vm_compute; reflexivity|reflexivity|].
  split; [exact Hn|]. split; [exact Hl|]. split; [exact He|exact Hc].
Defined.

Lemma load_method_error_provenance_witness :
  let s1 := final_state (load_method "nowhere" fresh) in
  load_method "nowhere" fresh = Returns (Err MethodNotFoundError) s1 /\
  (load Minimal fresh = Returns (Err MethodNotFoundError) s1 \/
   (exists tr,
      trace s1
      = tr ++ [Call_method_meta "nowhere" (Failure MethodNotFoundError)]) \/
   (exists tr mm t,
      trace s1
      = tr ++ [Call_Program_load_method "nowhere" mm t
                 (Failure MethodNotFoundError)])).
Proof.
  intros s1.
  assert (Hl : load_method "nowhere" fresh
               = Returns (Err MethodNotFoundError) s1).
  { vm_compute. reflexivity. }
  split; [exact Hl|].
  exact (load_method_error_provenance (RT := runtime) "nowhere" fresh
           MethodNotFoundError s1 Hl).
Defined.

Lemma load_method_bad_plan_witness :
  let s1 := final_state (load Minimal Faulty.fresh_bad) in
  load Minimal Faulty.fresh_bad = Returns Ok s1 /\
  buffer_size Faulty.negative 1 = Value (-1) /\
  exists h s',
    load_method "negative" Faulty.fresh_bad = Halts h s' /\
    is_method_loaded "negative" (module s') = false.
Proof.
  intros s1.
  assert (Hl : load Minimal Faulty.fresh_bad = Returns Ok s1).
  { vm_compute. reflexivity. }
  split; [exact Hl|]. split; [reflexivity|].
  destruct (load_method_bad_plan (RT := runtime) "negative" Faulty.fresh_bad
              s1
              (mkProgramPtr (RT := runtime) Faulty.bad_model
                 (Some (Some Faulty.bad_model)))
              Faulty.negative 1)
    as (h & s' & Hh & _ & Hn).
  - reflexivity.
  - exact Hl.
  - vm_compute. reflexivity.
  - reflexivity.
  - vm_compute. split; [discriminate|reflexivity].
  - intros z Hz. vm_compute in Hz. injection Hz as <-. lia.
  - exists h, s'. split; [exact Hh|exact Hn].
Defined.

Lemma method_names_aborts_witness :
  let s1 := final_state
              (load (RT := Faulty.miscounting) Minimal
                 Faulty.fresh_miscounting) in
  load (RT := Faulty.miscounting) Minimal Faulty.fresh_miscounting
  = Returns Ok s1 /\
  get_method_name model 3 = Failure MethodNotFoundError /\
  exists s',
    method_names (RT := Faulty.miscounting) Faulty.fresh_miscounting
    = Halts Abort s'.
Proof.
  intros s1.
  assert (Hl : load (RT := Faulty.miscounting) Minimal
                 Faulty.fresh_miscounting = Returns Ok s1).
  { vm_compute. reflexivity. }
  split; [exact Hl|]. split; [reflexivity|].
  destruct (method_names_aborts (RT := Faulty.miscounting)
              Faulty.fresh_miscounting s1
              (mkProgramPtr (RT := Faulty.miscounting) model
                 (Some (Some model))) 3 Hl)
    as (s' & Hs' & _).
  - vm_compute. reflexivity.
  - vm_compute. discriminate.
  - vm_compute. split; [discriminate|reflexivity].
  - reflexivity.
  - exists s'. exact Hs'.
Defined.

Lemma other_names_untouched_witness :
  "forward" ≠ "identity" /\
  methods_ (module (final_state (execute "identity" [VInt 1] loaded)))
  !! "forward"
  = Some forward_holder.
Proof.
  assert (Hne : "forward" ≠ "identity") by discriminate.
  split; [exact Hne|].
  destruct (other_names_untouched (RT := runtime) "identity" [VInt 1] loaded
              "forward" Hne) as (_ & _ & He).
  rewrite He. vm_compute. reflexivity.
Defined.

Lemma method_names_stable_witness :
  let cs := [Do_execute (RT := runtime) "identity" [VInt 1];
             Do_load InternalConsistency] in
  let s1 := final_state (method_names fresh) in
  exists names1 names2 s2,
    method_names fresh = Returns (Value names1) s1 /\
    method_names (run_calls cs s1) = Returns (Value names2) s2 /\
    names1 = names2.
Proof.
  intros cs s1.
  assert (exists names1, method_names fresh = Returns (Value names1) s1)
    as [names1 H1].
  { eexists. vm_compute. reflexivity. }
  assert (exists names2 s2,
            method_names (run_calls cs s1) = Returns (Value names2) s2)
    as (names2 & s2 & H2).
  { eexists _, _. vm_compute. reflexivity. }
  exists names1, names2, s2. split; [exact H1|]. split; [exact H2|].
  exact (method_names_stable (RT := runtime) fresh s1 s2 cs names1 names2
           H1 H2).
Defined.
